(** * pi-gitnexus: pattern extraction, augmentation hook and MCP transport

    A shallow embedding of the TypeScript sources [src/gitnexus.ts],
    [src/index.ts], [src/mcp-client.ts] and [src/tools.ts].

    Conventions of the embedding.
    - A JavaScript string is a [string]; its code units are modelled as
      the 8-bit characters of [ascii] (the range U+0000..U+00FF).
    - [null] / [undefined] results are [None].
    - A [Map] is the list of its entries in insertion order.
    - A number is known by the integer it equals, if any, and by its
      printed form.
    - Values of type [unknown] (tool inputs) and the messages [JSON.parse]
      returns are the untyped [value]s below; the source reads them
      defensively, and so does the embedding. [JSON.parse] itself is a
      parameter.
    - Paths are POSIX paths.
    - Child processes, timers and the file system are the environment: each
      callback the source registers is one transition of a state machine,
      and the environment chooses the order of the events, and whether
      [spawn] throws. *)

From Stdlib Require Import Ascii String ZArith Lia Bool Sorted.
From stdpp Require Import base option list gmap sets strings pretty.

Set Warnings "-register-all".

(** ** JavaScript string primitives *)
Module Js.

(** [WhiteSpace] and [LineTerminator] code units below U+0100: the class
    [\s] of regular expressions and the characters [trim] removes. *)
Definition is_space (c : ascii) : bool :=
  match c with
  | "009" | "010" | "011" | "012" | "013" | " " | "160" => true
  | _ => false
  end%char.

(** The class [\w]. *)
Definition is_word (c : ascii) : bool :=
  let n := nat_of_ascii c in
  ((48 <=? n) && (n <=? 57) || (65 <=? n) && (n <=? 90) ||
   (97 <=? n) && (n <=? 122) || (n =? 95))%nat.

(** The class [\d]. *)
Definition is_digit (c : ascii) : bool :=
  let n := nat_of_ascii c in ((48 <=? n) && (n <=? 57))%nat.

(** The class [[\\^$.*+?()[\]{}|]]. *)
Definition is_regex_meta (c : ascii) : bool :=
  match c with
  | "\" | "^" | "$" | "." | "*" | "+" | "?" | "(" | ")"
  | "[" | "]" | "{" | "}" | "|" => true
  | _ => false
  end%char.

(** The class of the single and the double quote character. *)
Definition is_quote (c : ascii) : bool :=
  match c with
  | "039" | "034" => true
  | _ => false
  end%char.

(** The class [[*?[\]{}]]. *)
Definition is_glob (c : ascii) : bool :=
  match c with
  | "*" | "?" | "[" | "]" | "{" | "}" => true
  | _ => false
  end%char.

Fixpoint forallb (p : ascii -> bool) (s : string) : bool :=
  match s with
  | "" => true
  | String c s' => p c && forallb p s'
  end.

(** [s.replace(/[cls]/g, '')]: every character of the class is removed. *)
Fixpoint remove (cls : ascii -> bool) (s : string) : string :=
  match s with
  | "" => ""
  | String c s' => if cls c then remove cls s' else String c (remove cls s')
  end.

Fixpoint drop_while (p : ascii -> bool) (s : string) : string :=
  match s with
  | "" => ""
  | String c s' => if p c then drop_while p s' else s
  end.

Fixpoint take_while (p : ascii -> bool) (s : string) : string :=
  match s with
  | "" => ""
  | String c s' => if p c then String c (take_while p s') else ""
  end.

(** Truthiness of a string: non-empty. *)
Definition truthy (s : string) : bool :=
  match s with "" => false | _ => true end.

(** [s.startsWith(p)]. *)
Definition startsWith (s p : string) : bool := String.prefix p s.

(** [s.slice(0, n)] for [0 <= n]. *)
Definition slice0 (n : nat) (s : string) : string := String.substring 0 n s.

(** [s.trim()]. *)
Definition trim (s : string) : string :=
  String.rev (drop_while is_space (String.rev (drop_while is_space s))).

(** [s.split(sep)] for a one-character separator: the pieces between the
    separators. A character that is not the separator extends the first
    piece of what follows it. *)
Fixpoint split (sep : ascii) (s : string) : list string :=
  match s with
  | "" => [""]
  | String c s' =>
      if Ascii.eqb c sep then "" :: split sep s'
      else
        match split sep s' with
        | piece :: rest => String c piece :: rest
        | [] => [String c ""]
        end
  end.

(** [s.split(/\s+/)]: the pieces between the maximal runs of white space;
    [in_ws] holds while such a run is being read. *)
Fixpoint split_ws_go (cur : string) (in_ws : bool) (s : string) : list string :=
  match s with
  | "" => [String.rev cur]
  | String c s' =>
      if is_space c then
        if in_ws then split_ws_go "" true s'
        else String.rev cur :: split_ws_go "" true s'
      else split_ws_go (String c cur) false s'
  end.
Definition split_ws (s : string) : list string := split_ws_go "" false s.

(** [xs.join(sep)]. *)
Fixpoint join (sep : string) (xs : list string) : string :=
  match xs with
  | [] => ""
  | [x] => x
  | x :: rest => x +:+ sep +:+ join sep rest
  end.

(** The position of the last ["."] of [s]: [s = pre ++ "." ++ suf] with no
    ["."] in [suf]. *)
Definition is_dot (c : ascii) : bool := Ascii.eqb c ".".
Definition not_dot (c : ascii) : bool := negb (is_dot c).
Definition split_last_dot (s : string) : option (string * string) :=
  let r := String.rev s in
  match drop_while not_dot r with
  | "" => None
  | String _ pre_rev => Some (String.rev pre_rev, String.rev (take_while not_dot r))
  end.

(** [s.replace(/\.\w+$/, '')]. A match starts at a ["."] and runs over word
    characters to the end of [s]; a word character is not a ["."], so the
    match, when there is one, starts at the last ["."]. *)
Definition strip_ext (s : string) : string :=
  match split_last_dot s with
  | Some (pre, suf) => if truthy suf && forallb is_word suf then pre else s
  | None => s
  end.

End Js.

(** ** [Map] with number keys: its entries, in insertion order *)
Module JsMap.
Section WithValue.
Context {V : Type}.

(** [m.get(k)]. *)
Fixpoint get (k : Z) (m : list (Z * V)) : option V :=
  match m with
  | [] => None
  | (k', v) :: rest => if decide (k' = k) then Some v else get k rest
  end.

(** [m.set(k, v)]: the value of a key that is present is replaced where
    it stands, a new key goes to the end. *)
Fixpoint set (k : Z) (v : V) (m : list (Z * V)) : list (Z * V) :=
  match m with
  | [] => [(k, v)]
  | (k', v') :: rest =>
      if decide (k' = k) then (k, v) :: rest else (k', v') :: set k v rest
  end.

(** [m.delete(k)]: the other entries keep their order. *)
Fixpoint delete (k : Z) (m : list (Z * V)) : list (Z * V) :=
  match m with
  | [] => []
  | (k', v) :: rest =>
      if decide (k' = k) then delete k rest else (k', v) :: delete k rest
  end.

(** [m.values()], in iteration order. *)
Definition values (m : list (Z * V)) : list V := snd <$> m.

End WithValue.
End JsMap.

(** ** [node:path], POSIX flavour *)
Module Path.

Definition sep : string := "/".
Definition is_slash (c : ascii) : bool := Ascii.eqb c "/".
Definition not_slash (c : ascii) : bool := negb (is_slash c).

(** [basename(p)]: the last segment of [p], trailing separators ignored. *)
Definition basename (p : string) : string :=
  String.rev (Js.take_while not_slash (Js.drop_while is_slash (String.rev p))).

(** [extname(p)]: from the last ["."] of the last segment to its end; empty
    when there is no ["."], when the segment starts with its only ["."], and
    for the segment [".."]. *)
Definition extname (p : string) : string :=
  let seg := basename p in
  match Js.split_last_dot seg with
  | None => ""
  | Some (pre, suf) =>
      if negb (Js.truthy pre) then ""
      else if String.eqb seg ".." then ""
      else "." +:+ suf
  end.

(** Segment normalisation of [resolve]: empty and ["."] segments vanish,
    [".."] removes the segment before it (nothing at the root). [acc] is
    the stack of kept segments, innermost first. *)
Fixpoint normalize_go (acc : list string) (segs : list string) : list string :=
  match segs with
  | [] => reverse acc
  | seg :: rest =>
      if String.eqb seg "" || String.eqb seg "." then normalize_go acc rest
      else if String.eqb seg ".." then normalize_go (tail acc) rest
      else normalize_go (seg :: acc) rest
  end.

Definition is_absolute (p : string) : bool := Js.startsWith p "/".

(** [resolve(a, b)] in a process whose working directory is [pcwd] (an
    absolute path): the arguments are taken right to left until an
    absolute one is met, empty ones skipped, and the result is normalised. *)
Definition resolve (pcwd : string) (a b : string) : string :=
  let joined :=
    if is_absolute b then b
    else if is_absolute a then (if Js.truthy b then a +:+ "/" +:+ b else a)
    else pcwd +:+ "/" +:+ a +:+ "/" +:+ b in
  "/" +:+ Js.join "/" (normalize_go [] (Js.split "/" joined)).

End Path.

(** ** Untyped values: what a tool input of type [Record<string, unknown>]
    can hold *)
(** A number, as far as this code can tell numbers apart: the integer it
    equals, if it equals one (the keys of [pending] are integers, and zero
    is the number that is falsy), and what [Number::toString] prints for
    it (which is what [join] puts into a text). *)
Record number : Type := Number { integer : option Z; printed : string }.

(** A safe integer: it prints in decimal. *)
Definition num_of_Z (n : Z) : number := Number (Some n) (pretty n).

Inductive value : Type :=
  | VNull
  | VBool (b : bool)
  | VNum (x : number)
  | VStr (s : string)
  | VArr (items : list value)
  | VObj (fields : list (string * value)).

(** A content block of a tool result, [{ type: string; text?: string }]. *)
Record block : Type := Block { type : string; text : option string }.

(** ** [src/gitnexus.ts]: the pattern extractor *)
Module Gitnexus.

(** [obj.key]; [None] is [undefined]. *)
Fixpoint get (key : string) (fields : list (string * value)) : option value :=
  match fields with
  | [] => None
  | (k, v) :: rest => if String.eqb k key then Some v else get key rest
  end.

(** [typeof v === 'string' ? v : null]. *)
Definition as_string (v : option value) : option string :=
  match v with
  | Some (VStr s) => Some s
  | _ => None
  end.

Definition CODE_EXTENSIONS : gset string :=
  list_to_set
    [".sol"; ".ts"; ".tsx"; ".js"; ".jsx"; ".py"; ".go"; ".rs"; ".java";
     ".kt"; ".swift"; ".c"; ".cpp"; ".h"; ".hpp"; ".cs"; ".rb"; ".php";
     ".vy"; ".fe"; ".huff"].

Definition is_code_ext (ext : string) : bool :=
  bool_decide (ext ∈ CODE_EXTENSIONS).

(** [raw.replace(/[\\^$.*+?()[\]{}|]/g, '')]. *)
Definition strip_meta (s : string) : string := Js.remove Js.is_regex_meta s.
(** [tok.replace(/['dq]/g, '')], [dq] the double quote. *)
Definition strip_quotes (s : string) : string := Js.remove Js.is_quote s.
(** [seg.replace(/[*?[\]{}]/g, '')]. *)
Definition strip_glob (s : string) : string := Js.remove Js.is_glob s.

(** [basename(p).replace(/\.\w+$/, '')]. *)
Definition stem (p : string) : string := Js.strip_ext (Path.basename p).

Definition is_grep_cmd (tok : string) : bool :=
  String.eqb tok "grep" || String.eqb tok "rg".
Definition is_file_cmd (tok : string) : bool :=
  String.eqb tok "cat" || String.eqb tok "head" || String.eqb tok "tail" ||
  String.eqb tok "less" || String.eqb tok "wc".
Definition is_name_flag (tok : string) : bool :=
  String.eqb tok "-name" || String.eqb tok "-iname".

(** [tokens[i + 1]] is truthy. *)
Definition next_truthy (rest : list string) : bool :=
  match rest with
  | t :: _ => Js.truthy t
  | [] => false
  end.

(** The [for] loop of the [bash] branch over [tokens[i..]]; the result is
    the value of [pattern] when the loop is left. *)
Fixpoint scan_tokens (foundCmd foundFileCmd : bool) (tokens : list string)
  : option string :=
  match tokens with
  | [] => None
  | tok :: rest =>
      if is_grep_cmd tok then scan_tokens true false rest
      else if foundCmd then
        if Js.startsWith tok "-" then scan_tokens foundCmd foundFileCmd rest
        else Some (strip_meta (strip_quotes tok))
      else if is_file_cmd tok then scan_tokens false true rest
      else if foundFileCmd then
        if Js.startsWith tok "-" then scan_tokens foundCmd foundFileCmd rest
        else
          let unquoted := strip_quotes tok in
          if is_code_ext (Path.extname unquoted) then Some (stem unquoted)
          else None
      else if String.eqb tok "find" then scan_tokens false false rest
      else if is_name_flag tok && next_truthy rest then
        let unquoted := strip_quotes (hd "" rest) in
        let seg := strip_glob (stem unquoted) in
        if (3 <=? String.length seg)%nat then Some seg else None
      else scan_tokens foundCmd foundFileCmd rest
  end.

(** [x || null] on a string. *)
Definition or_null (s : string) : option string :=
  if Js.truthy s then Some s else None.

Definition extractPattern (toolName : string) (input : list (string * value))
  : option string :=
  let pattern : option string :=
    if String.eqb toolName "grep" then
      match as_string (get "pattern" input) with
      | Some raw => if Js.truthy raw then Some (strip_meta raw) else None
      | None => None
      end
    else if String.eqb toolName "find" then
      let raw :=
        match as_string (get "pattern" input) with
        | Some s => Some s
        | None =>
            match as_string (get "glob" input) with
            | Some s => Some s
            | None => as_string (get "path" input)
            end
        end in
      match raw with
      | Some raw =>
          if Js.truthy raw then or_null (strip_glob (stem raw)) else None
      | None => None
      end
    else if String.eqb toolName "bash" then
      let cmd := default "" (as_string (get "command" input)) in
      scan_tokens false false (Js.split_ws cmd)
    else if String.eqb toolName "read" then
      match as_string (get "path" input) with
      | Some raw =>
          if Js.truthy raw && is_code_ext (Path.extname raw)
          then Some (stem raw) else None
      | None => None
      end
    else None in
  match pattern with
  | Some p =>
      if negb (Js.truthy p) || (String.length p <? 3)%nat then None else Some p
  | None => None
  end.

(** An element of the result of [extractFilesFromReadMany]. *)
Record file_pattern : Type := FilePattern { path : string; pattern : string }.

(** The closure [add] of [extractFilesFromReadMany], on the pair of the
    variables [seen] and [results] it updates. *)
Definition add (st : gset string * list file_pattern) (filePath : string)
  : gset string * list file_pattern :=
  let ext := Path.extname filePath in
  if negb (is_code_ext ext) then st
  else
    let pattern := stem filePath in
    if (String.length pattern <? 3)%nat || bool_decide (pattern ∈ st.1) then st
    else ({[pattern]} ∪ st.1, st.2 ++ [FilePattern filePath pattern]).

(** [Array.isArray(input.files) ? input.files : []]. *)
Definition files_of (input : list (string * value)) : list value :=
  match get "files" input with
  | Some (VArr items) => items
  | _ => []
  end.

(** [f.path] when [f] is a non-null object whose [path] is a string. *)
Definition path_of (f : value) : option string :=
  match f with
  | VObj fields => as_string (get "path" fields)
  | _ => None
  end.

Definition add_file (st : gset string * list file_pattern) (f : value)
  : gset string * list file_pattern :=
  match path_of f with
  | Some p => add st p
  | None => st
  end.

(** [content.map(c => c.text ?? '').join('\n')]. *)
Definition content_text (content : list block) : string :=
  Js.join (String "010" "") ((fun c => default "" (text c)) <$> content).

(** The characters [.] matches: all but the line terminators. *)
Definition not_line_terminator (c : ascii) : bool :=
  negb (Ascii.eqb c "010" || Ascii.eqb c "013").

(** [line.match(/^@(.+)$/)]: the capture group of the match. *)
Definition match_at_line (line : string) : option string :=
  match line with
  | String "@" rest =>
      if Js.truthy rest && Js.forallb not_line_terminator rest
      then Some rest else None
  | _ => None
  end.

Definition add_line (st : gset string * list file_pattern) (line : string)
  : gset string * list file_pattern :=
  match match_at_line line with
  | Some m1 => add st (Js.trim m1)
  | None => st
  end.

Definition extractFilesFromReadMany
    (input : list (string * value)) (content : list block)
  : list file_pattern :=
  let st := foldl add_file (∅, []) (files_of input) in
  let st :=
    if (length st.2 =? 0)%nat
    then foldl add_line st (Js.split "010" (content_text content))
    else st in
  st.2.

Definition not_colon_nl (c : ascii) : bool :=
  negb (Ascii.eqb c ":" || Ascii.eqb c "010").

(** [line.match(/^([^\n:]+\.\w+):\d+:/)]: the first capture group. The
    group holds no colon and is followed by one, so it is the text before
    the first colon of the line. *)
Definition match_grep_line (line : string) : option string :=
  let p := Js.take_while not_colon_nl line in
  match Js.drop_while not_colon_nl line with
  | String ":" after =>
      match Js.split_last_dot p with
      | Some (a, w) =>
          if Js.truthy a && Js.truthy w && Js.forallb Js.is_word w then
            match Js.drop_while Js.is_digit after with
            | String ":" _ =>
                if Js.truthy (Js.take_while Js.is_digit after)
                then Some p else None
            | _ => None
            end
          else None
      | None => None
      end
  | _ => None
  end.

(** The loop of [extractFilePatternsFromContent] over the remaining lines. *)
Fixpoint scan_lines (limit : nat) (seen : gset string) (results : list string)
    (lines : list string) : list string :=
  match lines with
  | [] => results
  | line :: rest =>
      match match_grep_line line with
      | None => scan_lines limit seen results rest
      | Some m1 =>
          let base := stem m1 in
          let fresh :=
            (3 <=? String.length base)%nat && negb (bool_decide (base ∈ seen)) in
          let seen' := if fresh then {[base]} ∪ seen else seen in
          let results' := if fresh then results ++ [base] else results in
          if (limit <=? length results')%nat then results'
          else scan_lines limit seen' results' rest
      end
  end.

Definition extractFilePatternsFromContent (content : list block) (limit : nat)
  : list string :=
  scan_lines limit ∅ [] (Js.split "010" (content_text content)).

(** [process_cwd] is [process.cwd()], which [resolve] consults when [cwd]
    is not absolute. *)
Definition safeResolvePath (process_cwd : string) (file cwd : string)
  : option string :=
  let resolved := Path.resolve process_cwd cwd file in
  if Js.startsWith resolved (cwd +:+ Path.sep) || String.eqb resolved cwd
  then Some resolved else None.

(** [MAX_OUTPUT_CHARS = 8 * 1024]. *)
Definition MAX_OUTPUT_CHARS : nat := 8 * 1024.

End Gitnexus.

(** ** [src/index.ts]: the [tool_result] hook *)
Module Hook.
Import Gitnexus.

(** The module-level variables of [index.ts], and [indexCache] of
    [gitnexus.ts]. *)
Record session : Type := Session {
  augmentEnabled : bool;
  augmentHits : nat;
  hookFires : nat;
  augmentedCache : gset string;
  sessionCwd : string;
  indexCache : gmap string bool
}.

(** The [event] argument of the hook. *)
Record tool_event : Type := ToolEvent {
  toolName : string;
  input : list (string * value);
  content : list block
}.

Definition SEARCH_TOOLS : gset string :=
  list_to_set ["grep"; "find"; "bash"; "read"; "read_many"].

(** What the hook is waiting for at its [await]: the files of the
    [read_many] branch, or the patterns of the single-pattern branch. *)
Inductive job : Type :=
  | BatchJob (fresh : list file_pattern)
  | SingleJob (toRun : list string).

(** The first arguments of the [runAugment] calls of a job, in order. *)
Definition job_patterns (j : job) : list string :=
  match j with
  | BatchJob fresh => pattern <$> fresh
  | SingleJob toRun => toRun
  end.

(** [[...new Set(xs)]]: the elements of [xs] in the order of their first
    occurrence; [seen] are the elements already in the set. *)
Fixpoint set_order (seen : gset string) (xs : list string) : list string :=
  match xs with
  | [] => []
  | x :: rest =>
      if bool_decide (x ∈ seen) then set_order seen rest
      else x :: set_order ({[x]} ∪ seen) rest
  end.

(** [xs.forEach(p => augmentedCache.add(p))]. *)
Definition add_all (xs : list string) (cache : gset string) : gset string :=
  foldl (fun c p => {[p]} ∪ c) cache xs.

(** [f.path.split('/').pop()]. *)
Definition file_label (f : file_pattern) : string :=
  default "" (last (Js.split "/" (path f))).

Definition nl : string := String "010" "".

(** The module variable [gitnexusCmd] as [onSession] sets it:
    [(flag ?? saved ?? 'gitnexus').trim().split(/\s+/)], for the value of
    the flag [gitnexus-cmd] and the [cmd] of the saved configuration. *)
Definition session_command (flag saved : option string) : list string :=
  let cmdStr :=
    match flag with
    | Some f => f
    | None => default "gitnexus" saved
    end in
  Js.split_ws (Js.trim cmdStr).

Section WithEnvironment.
(** [existsSync] of the file system and [process.cwd()]. *)
Variable existsSync : string -> bool.
Variable process_cwd : string.

(** The loop of [findGitNexusIndex], [n] iterations left. *)
Fixpoint walk_up (n : nat) (dir : string) : bool :=
  match n with
  | O => false
  | S n' =>
      if existsSync (Path.resolve process_cwd dir ".gitnexus") then true
      else
        let parent := Path.resolve process_cwd dir ".." in
        if String.eqb parent dir then false else walk_up n' parent
  end.

Definition findGitNexusIndex (cache : gmap string bool) (cwd : string)
  : bool * gmap string bool :=
  match cache !! cwd with
  | Some b => (b, cache)
  | None => let b := walk_up 5 cwd in (b, <[cwd := b]> cache)
  end.

(** The hook up to its [await]: the new state and, unless the hook has
    returned, the working directory and the job it dispatches. *)
Definition tool_result_begin (st : session) (event : tool_event)
    (ctx_cwd : string) : session * option (string * job) :=
  if negb (augmentEnabled st) then (st, None)
  else if negb (bool_decide (toolName event ∈ SEARCH_TOOLS)) then (st, None)
  else
    let cwd := if Js.truthy (sessionCwd st) then sessionCwd st else ctx_cwd in
    let '(found, icache) := findGitNexusIndex (indexCache st) cwd in
    let st :=
      Session (augmentEnabled st) (augmentHits st) (S (hookFires st))
              (augmentedCache st) (sessionCwd st) icache in
    if negb found then (st, None)
    else if String.eqb (toolName event) "read_many" then
      let files := extractFilesFromReadMany (input event) (content event) in
      let fresh :=
        take 5 (filter (fun f => pattern f ∉ augmentedCache st) files) in
      if (length fresh =? 0)%nat then (st, None)
      else
        (Session (augmentEnabled st) (augmentHits st) (hookFires st)
                 (add_all (pattern <$> fresh) (augmentedCache st))
                 (sessionCwd st) (indexCache st),
         Some (cwd, BatchJob fresh))
    else
      let primary := extractPattern (toolName event) (input event) in
      let secondary :=
        if String.eqb (toolName event) "grep" || String.eqb (toolName event) "bash"
        then extractFilePatternsFromContent (content event) 2
        else [] in
      let candidates :=
        set_order ∅
          (filter (fun p => Js.truthy p) (option_list primary ++ secondary)) in
      let fresh :=
        filter (fun p => p ∉ augmentedCache st) candidates in
      if (length fresh =? 0)%nat then (st, None)
      else
        let toRun := take 3 fresh in
        (Session (augmentEnabled st) (augmentHits st) (hookFires st)
                 (add_all toRun (augmentedCache st))
                 (sessionCwd st) (indexCache st),
         Some (cwd, SingleJob toRun)).

Definition hit (st : session) : session :=
  Session (augmentEnabled st) (S (augmentHits st)) (hookFires st)
          (augmentedCache st) (sessionCwd st) (indexCache st).

(** The hook after its [await]: [outs] are the strings the [runAugment]
    calls of the job resolved to, in the order of [job_patterns]. The
    result is the [content] the hook returns, [None] when it returns
    nothing. *)
Definition tool_result_finish (st : session) (event : tool_event)
    (j : job) (outs : list string) : session * option (list block) :=
  match j with
  | BatchJob fresh =>
      let results := zip fresh outs in
      let sections := filter (fun r => Js.truthy r.2) results in
      match sections with
      | [] => (st, None)
      | s0 :: more =>
          let label :=
            match more with
            | [] => "[GitNexus: " +:+ file_label s0.1 +:+ "]"
            | _ => "[GitNexus]"
            end in
          let body :=
            match more with
            | [] => s0.2
            | _ =>
                Js.join (nl +:+ nl)
                  ((fun r => "### " +:+ file_label r.1 +:+ nl +:+ r.2)
                     <$> sections)
            end in
          (hit st,
           Some (content event ++
                 [Block "text" (Some (nl +:+ nl +:+ label +:+ nl +:+ body))]))
      end
  | SingleJob toRun =>
      let combined :=
        Js.join (nl +:+ nl) (filter (fun out => Js.truthy out) outs) in
      if negb (Js.truthy combined) then (st, None)
      else
        (hit st,
         Some (content event ++
               [Block "text"
                  (Some (nl +:+ nl +:+ "[GitNexus: " +:+ Js.join ", " toRun
                         +:+ "]" +:+ nl +:+ combined))]))
  end.

(** One whole run of the hook. [runAugment pattern cwd] is what the call
    resolves to. The second component lists the [runAugment] calls
    issued, as (pattern, cwd) pairs in the order of dispatch. *)
Definition tool_result (runAugment : string -> string -> string)
    (st : session) (event : tool_event) (ctx_cwd : string)
  : session * list (string * string) * option (list block) :=
  match tool_result_begin st event ctx_cwd with
  | (st1, None) => (st1, [], None)
  | (st1, Some (cwd, j)) =>
      let outs := (fun p => runAugment p cwd) <$> job_patterns j in
      let '(st2, r) := tool_result_finish st1 event j outs in
      (st2, (fun p => (p, cwd)) <$> job_patterns j, r)
  end.

End WithEnvironment.

End Hook.

(** ** [src/mcp-client.ts]: the stdio JSON-RPC client *)
Module Mcp.
Import Gitnexus.

(** Completion of a piece of JavaScript: a value, or an exception. *)
Inductive outcome (A : Type) : Type :=
  | Ok (a : A)
  | Throw.
Arguments Ok {A} a.
Arguments Throw {A}.

Definition bind {A B : Type} (m : outcome A) (f : A -> outcome B) : outcome B :=
  match m with
  | Ok a => f a
  | Throw => Throw
  end.

Notation "'let*' x ':=' m 'in' k" := (bind m (fun x => k))
  (at level 10, x name, m at level 100, k at level 200).

(** [try { body } catch { handler }]. *)
Definition try_catch {A : Type} (body : outcome A) (handler : A) : A :=
  match body with
  | Ok a => a
  | Throw => handler
  end.

(** [v.key] at one of the keys the client reads ([id], [error], [result],
    [content], [isError], [type], [text]): a [TypeError] on [null], the
    field of an object, [undefined] on everything else (no string, number,
    boolean or array has a property of these names). *)
Definition prop (v : value) (key : string) : outcome (option value) :=
  match v with
  | VNull => Throw
  | VObj fields => Ok (get key fields)
  | _ => Ok None
  end.

(** Truthiness; [None] is [undefined]. [JSON.parse] returns no [NaN], so
    zero is the only number that is falsy. *)
Definition truthy (v : option value) : bool :=
  match v with
  | None | Some VNull => false
  | Some (VBool b) => b
  | Some (VNum x) =>
      match integer x with Some 0%Z => false | _ => true end
  | Some (VStr s) => Js.truthy s
  | Some (VArr _) | Some (VObj _) => true
  end.

(** [ToString]: what [join] makes of an element; inside an array [null]
    prints as the empty string. *)
Fixpoint to_string (v : value) : string :=
  match v with
  | VNull => "null"
  | VBool true => "true"
  | VBool false => "false"
  | VNum x => printed x
  | VStr s => s
  | VArr items =>
      Js.join ","
        ((fix elems (l : list value) : list string :=
            match l with
            | [] => []
            | VNull :: l' => "" :: elems l'
            | x :: l' => to_string x :: elems l'
            end) items)
  | VObj _ => "[object Object]"
  end.

(** [v === s] for a string literal [s]. *)
Definition is_string (v : option value) (s : string) : bool :=
  match v with
  | Some (VStr t) => String.eqb t s
  | _ => false
  end.

(** The predicate of [result.content.filter]:
    [c.type === 'text' && !c.isError && c.text]. *)
Definition is_text_block (c : value) : outcome bool :=
  let* ty := prop c "type" in
  if is_string ty "text" then
    let* isError := prop c "isError" in
    if truthy isError then Ok false
    else let* t := prop c "text" in Ok (truthy t)
  else Ok false.

(** [xs.filter(p)] for a predicate that can throw. *)
Fixpoint filter_blocks (items : list value) : outcome (list value) :=
  match items with
  | [] => Ok []
  | c :: rest =>
      let* keep := is_text_block c in
      let* rest' := filter_blocks rest in
      Ok (if keep then c :: rest' else rest')
  end.

(** [c.text!] printed by [join]; [undefined] prints as the empty string. *)
Definition block_text (c : value) : string :=
  match c with
  | VObj fields =>
      match get "text" fields with
      | Some v => to_string v
      | None => ""
      end
  | _ => ""
  end.

(** [obj.filter(...)] on a truthy [content]: only an array has the method. *)
Definition as_array (content : option value) : outcome (list value) :=
  match content with
  | Some (VArr items) => Ok items
  | _ => Throw
  end.

Definition label : string := "[GitNexus]" +:+ String "010" "".

Section WithJson.
(** [JSON.parse]; [None] when it throws a [SyntaxError]. *)
Variable JSON_parse : string -> option value.

Definition parse (raw : string) : outcome value :=
  match JSON_parse raw with
  | Some v => Ok v
  | None => Throw
  end.

(** The body of the [try] in the [resolve] closure of [callTool] once
    [JSON.parse(raw)] has returned [msg]; the result is the argument of
    [resolve_]. *)
Definition callTool_resolve_body (msg : value) : outcome string :=
  let* error := prop msg "error" in
  if truthy error then Ok ""
  else
    let* result := prop msg "result" in
    let* content :=
      match result with
      | None | Some VNull => Ok None
      | Some r => prop r "content"
      end in
    if negb (truthy content) then Ok ""
    else
      let* isError := from_option (fun r => prop r "isError") (Ok None) result in
      if truthy isError then Ok ""
      else
        let* items := as_array content in
        let* kept := filter_blocks items in
        let text := Js.join (String "010" "") (block_text <$> kept) in
        Ok (label +:+ Js.slice0 MAX_OUTPUT_CHARS text).

(** What the promise of [callTool] resolves to when the response line
    [raw] is delivered to its [resolve] closure. *)
Definition callTool_resolve (raw : string) : string :=
  try_catch (let* msg := parse raw in callTool_resolve_body msg) "".

(** The closures stored in [pending]: the one of the handshake (for the
    process [h] it started), or the one of the [callTool] invocation
    whose promise is [k]. *)
Inductive waiter : Type :=
  | InitWaiter (h : nat)
  | CallWaiter (k : nat).

(** Lines written to the standard input of the child. *)
Inductive message : Type :=
  | MInitialize
  | MInitialized
  | MToolsCall (id : Z) (name : string) (arguments : list (string * value)).

(** What a transition does to the world outside the client object. *)
Inductive effect : Type :=
  | StdinWrite (h : nat) (m : message)
  | Kill (h : nat)
  | Settle (k : nat) (result : string)
  | StartResolved
  | StartRejected.

(** The fields of [GitNexusMcpClient]; [startPromise] records whether
    the field is non-null. *)
Record client : Type := Client {
  proc : option nat;
  buffer : string;
  pending : list (Z * waiter);
  nextId : Z;
  startPromise : bool
}.

Definition initial : client := Client None "" [] 2 false.

(** [p.resolve(line)]. *)
Definition resolve (w : waiter) (line : string) (st : client)
  : client * list effect :=
  match w with
  | InitWaiter h =>
      (Client (Some h) (buffer st) (pending st) (nextId st) (startPromise st),
       [StdinWrite h MInitialized; StartResolved])
  | CallWaiter k => (st, [Settle k (callTool_resolve line)])
  end.

(** [p.reject(err)]. *)
Definition reject (w : waiter) (st : client) : client * list effect :=
  match w with
  | InitWaiter _ =>
      (Client (proc st) (buffer st) (pending st) (nextId st) false,
       [StartRejected])
  | CallWaiter k => (st, [Settle k ""])
  end.

(** [pending.get(id)] and [pending.delete(id)] for an [id] read from a
    message: the keys of [pending] are integers, so only a number that
    equals an integer finds or removes an entry. *)
Definition pending_get (pending : list (Z * waiter)) (id : value)
  : option waiter :=
  match id with
  | VNum x =>
      match integer x with
      | Some n => JsMap.get n pending
      | None => None
      end
  | _ => None
  end.
Definition pending_delete (pending : list (Z * waiter)) (id : value)
  : list (Z * waiter) :=
  match id with
  | VNum x =>
      match integer x with
      | Some n => JsMap.delete n pending
      | None => pending
      end
  | _ => pending
  end.

(** The body of the [try] of the [data] handler, for one line. *)
Definition on_line_body (st : client) (line : string)
  : outcome (client * list effect) :=
  let* msg := parse line in
  let* id := prop msg "id" in
  match id with
  | None => Ok (st, [])
  | Some id =>
      match pending_get (pending st) id with
      | Some p =>
          Ok (resolve p line
                (Client (proc st) (buffer st)
                        (pending_delete (pending st) id)
                        (nextId st) (startPromise st)))
      | None => Ok (st, [])
      end
  end.

(** One iteration of the loop of the [data] handler. *)
Definition on_line (st : client) (line : string) : client * list effect :=
  if negb (Js.truthy (Js.trim line)) then (st, [])
  else try_catch (on_line_body st line) (st, []).

Definition on_lines (st : client) (lines : list string)
  : client * list effect :=
  foldl (fun acc line =>
           let '(st', effs) := on_line acc.1 line in (st', acc.2 ++ effs))
        (st, []) lines.

(** The [data] handler of the child's standard output. *)
Definition on_data (st : client) (chunk : string) : client * list effect :=
  let lines := Js.split "010" (buffer st +:+ chunk) in
  let st := Client (proc st) (default "" (last lines)) (pending st)
                   (nextId st) (startPromise st) in
  on_lines st (removelast lines).

(** [for (const p of this.pending.values()) p.reject(...)], then
    [this.pending.clear()]. *)
Definition reject_all (st : client) : client * list effect :=
  let '(st', effs) :=
    foldl (fun acc w =>
             let '(st', effs) := reject w acc.1 in (st', acc.2 ++ effs))
          (st, []) (JsMap.values (pending st)) in
  (Client (proc st') (buffer st') [] (nextId st') (startPromise st'), effs).

(** The [close] handler of the child. *)
Definition on_close (st : client) : client * list effect :=
  reject_all (Client None (buffer st) (pending st) (nextId st) false).

(** The [error] handler of the child. *)
Definition on_error (st : client) : client * list effect :=
  (Client (proc st) (buffer st) (pending st) (nextId st) false,
   [StartRejected]).

(** [ensureStarted] when it has to spawn; [h] is the new child. *)
Definition ensureStarted (st : client) (h : nat) : client * list effect :=
  match proc st with
  | Some _ => (st, [])
  | None =>
      if startPromise st then (st, [])
      else
        (Client (proc st) (buffer st)
                (JsMap.set 1%Z (InitWaiter h) (pending st))
                (nextId st) true,
         [StdinWrite h MInitialize])
  end.

(** [callTool] after [await this.ensureStarted(cwd)] has returned, for
    the invocation whose promise is [k]; [write_ok] tells whether
    [stdin.write] returns (rather than throws). *)
Definition callTool_issue (st : client) (k : nat) (name : string)
    (args : list (string * value)) (write_ok : bool)
  : client * list effect :=
  match proc st with
  | None => (st, [Settle k ""])
  | Some h =>
      let id := nextId st in
      let st := Client (proc st) (buffer st) (pending st) (id + 1) (startPromise st) in
      let st := Client (proc st) (buffer st)
                       (JsMap.set id (CallWaiter k) (pending st))
                       (nextId st) (startPromise st) in
      if write_ok then (st, [StdinWrite h (MToolsCall id name args)])
      else
        (Client (proc st) (buffer st) (JsMap.delete id (pending st))
                (nextId st) (startPromise st),
         [Settle k ""])
  end.

(** [callTool] when [await this.ensureStarted(cwd)] throws. *)
Definition callTool_failed (st : client) (k : nat) : client * list effect :=
  (st, [Settle k ""]).

(** [stop()]. *)
Definition stop (st : client) : client * list effect :=
  let kills := match proc st with Some h => [Kill h] | None => [] end in
  let '(st', effs) :=
    reject_all (Client None (buffer st) (pending st) (nextId st) false) in
  (st', kills ++ effs).

(** What can happen to the client, one callback at a time. *)
Inductive action : Type :=
  | AStart (h : nat)
  | AIssue (k : nat) (name : string) (args : list (string * value))
           (write_ok : bool)
  | AFailed (k : nat)
  | AData (chunk : string)
  | AClose
  | AError
  | AStop.

Definition step (st : client) (a : action) : client * list effect :=
  match a with
  | AStart h => ensureStarted st h
  | AIssue k name args write_ok => callTool_issue st k name args write_ok
  | AFailed k => callTool_failed st k
  | AData chunk => on_data st chunk
  | AClose => on_close st
  | AError => on_error st
  | AStop => stop st
  end.

(** A run: the callbacks of [trace] one after the other; the state
    after each of them and its effects are recorded. *)
Fixpoint run (st : client) (trace : list action) : client * list effect :=
  match trace with
  | [] => (st, [])
  | a :: rest =>
      let '(st1, e1) := step st a in
      let '(st2, e2) := run st1 rest in
      (st2, e1 ++ e2)
  end.

(** The ids of the [tools/call] requests among the effects, in order. *)
Definition call_ids (effs : list effect) : list Z :=
  omap (fun e => match e with
                 | StdinWrite _ (MToolsCall id _ _) => Some id
                 | _ => None
                 end) effs.

End WithJson.

End Mcp.

(** ** [src/gitnexus.ts]: [runAugment], the one-shot invoker *)
Module Augment.
Import Gitnexus.

(** The callbacks [runAugment] registers: [data] on the standard error of
    the child, [close] with the exit code ([None] is [null]), [error], and
    the expiry of the timer of [AUGMENT_TIMEOUT] milliseconds. *)
Inductive event : Type :=
  | EData (chunk : string)
  | EClose (code : option Z)
  | EError
  | ETimeout.

(** The local variables [output] and [done] of one invocation, whether
    its timer is still set, and what it has done to the outside so far:
    the arguments of the calls of [resolve_] and the number of [SIGTERM]
    signals sent to the child. *)
Record invocation : Type := Invocation {
  output : string;
  done : bool;
  timer : bool;
  resolved : list string;
  sigterms : nat
}.

(** The state when the executor of the promise returns, [spawn] having
    returned the child. *)
Definition spawned : invocation := Invocation "" false true [] 0.

Definition on_event (st : invocation) (e : event) : invocation :=
  match e with
  | EData chunk =>
      Invocation (output st +:+ chunk) (done st) (timer st) (resolved st)
                 (sigterms st)
  | EClose code =>
      if done st then st
      else
        let out :=
          match code with
          | Some 0%Z => Js.slice0 MAX_OUTPUT_CHARS (Js.trim (output st))
          | _ => ""
          end in
        Invocation (output st) true false (resolved st ++ [out]) (sigterms st)
  | EError =>
      if done st then st
      else Invocation (output st) true false (resolved st ++ [""]) (sigterms st)
  | ETimeout =>
      if timer st then
        if done st then
          Invocation (output st) (done st) false (resolved st) (sigterms st)
        else
          Invocation (output st) true false (resolved st ++ [""])
                     (S (sigterms st))
      else st
  end.

Definition run (events : list event) : invocation :=
  foldl on_event spawned events.

(** What the promise of [runAugment] is resolved to: the argument of the
    first call of [resolve_], if any. *)
Definition result (st : invocation) : option string := head (resolved st).

(** The events up to (not including) the first [close] or [error]. *)
Definition is_data (e : event) : bool :=
  match e with EData _ => true | _ => false end.

(** [spawn(bin, args, { cwd, ... })] of [node:child_process] up to its
    return: whether it throws. Node checks the arguments before it starts
    anything, and throws for a [file] that is [undefined] or the empty
    string. Past that check the rest of Node and the operating system
    decide: some of their failures arrive later, as the [error] event, the
    others are thrown by [spawn] itself; [sys_throws] is that decision. *)
Definition spawn_throws (sys_throws : string -> list string -> string -> bool)
    (bin : option string) (args : list string) (cwd : string) : bool :=
  match bin with
  | None => true
  | Some file => negb (Js.truthy file) || sys_throws file args cwd
  end.

(** The promise [runAugment] returns. *)
Inductive promise : Type :=
  | Unsettled
  | Fulfilled (v : string)
  | Rejected.

(** [runAugment(pattern, cwd)] for the value [gitnexusCmd] of the module
    variable: the promise after the [events] of the child. The executor
    of the promise has no [try], so an exception of [spawn] rejects the
    promise; otherwise the promise is what the first call of [resolve_]
    makes it. *)
Definition runAugment (sys_throws : string -> list string -> string -> bool)
    (gitnexusCmd : list string) (pattern cwd : string) (events : list event)
  : promise :=
  if spawn_throws sys_throws (head gitnexusCmd)
                  (tail gitnexusCmd ++ ["augment"; pattern]) cwd
  then Rejected
  else
    match result (run events) with
    | Some v => Fulfilled v
    | None => Unsettled
    end.

End Augment.

(** ** [src/tools.ts]: the [gitnexus_context] tool *)
Module Tools.
Import Gitnexus.

(** The parameters of [gitnexus_context]. *)
Record context_params : Type := ContextParams {
  name : option string;
  uid : option string;
  file : option string;
  include_content : option bool
}.

Definition NO_INDEX : string :=
  "No GitNexus index found. Run: /gitnexus analyze".

(** Truthiness of an optional string parameter. *)
Definition given (p : option string) : bool :=
  match p with
  | Some s => Js.truthy s
  | None => false
  end.

(** Where [execute] stands when it returns or reaches its [await]: it has
    answered with [text(msg)], or it calls the backend tool [context]
    through [mcpClient.callTool]. *)
Inductive progress : Type :=
  | Answer (msg : string)
  | CallBackend (tool : string) (args : context_params).

Section WithEnvironment.
Variable existsSync : string -> bool.
Variable process_cwd : string.

(** [execute] of [gitnexus_context] up to its [await]. *)
Definition context_execute (icache : gmap string bool)
    (params : context_params) (cwd : string)
  : gmap string bool * progress :=
  let '(found, icache) :=
    Hook.findGitNexusIndex existsSync process_cwd icache cwd in
  if negb found then (icache, Answer NO_INDEX)
  else if negb (given (name params)) && negb (given (uid params))
  then (icache, Answer "Provide either name or uid.")
  else if given (file params) then
    match safeResolvePath process_cwd (default "" (file params)) cwd with
    | Some safe =>
        if Js.truthy safe then
          (icache,
           CallBackend "context"
             (ContextParams (name params) (uid params) (Some safe)
                            (include_content params)))
        else (icache, Answer "Invalid file path.")
    | None => (icache, Answer "Invalid file path.")
    end
  else (icache, CallBackend "context" params).

(** [text(out || 'No results.')], the answer once [callTool] has
    resolved to [out]. *)
Definition context_answer (out : string) : string :=
  if Js.truthy out then out else "No results.".

End WithEnvironment.

End Tools.

(** * Vocabulary of the statements *)

Import Gitnexus.

(** ** Pattern extraction *)

(** A token that arms no rule of the [bash] scan. *)
Definition inert (tok : string) : Prop :=
  is_grep_cmd tok = false /\ is_file_cmd tok = false /\ is_name_flag tok = false.

(** A character that neither quote stripping nor metacharacter stripping
    removes. *)
Definition plain_char (c : ascii) : bool :=
  negb (Js.is_regex_meta c) && negb (Js.is_quote c).

(** A path [add] accepts when its pattern is new. *)
Definition eligible (p : string) : Prop :=
  is_code_ext (Path.extname p) = true /\ (3 <= String.length (stem p))%nat.

#[local] Instance eligible_dec (p : string) : Decision (eligible p).
Proof. unfold eligible. apply _. Defined.

(** The entry [add] pushes for the path [p]. *)
Definition entry (p : string) : file_pattern := FilePattern p (stem p).

(** [add] run over a list of paths, from the empty [seen] and [results]. *)
Definition batch_of (paths : list string) : list file_pattern :=
  (foldl add (∅, []) paths).2.

(** The paths the primary loop of [extractFilesFromReadMany] passes to
    [add]. *)
Definition primary_paths (input : list (string * value)) : list string :=
  omap path_of (files_of input).

(** The paths its fallback loop passes to [add]. *)
Definition fallback_paths (content : list block) : list string :=
  omap (fun line => Js.trim <$> match_at_line line)
       (Js.split "010" (content_text content)).

(** [seen] holds exactly the patterns of [results]. *)
Definition consistent (st : gset string * list file_pattern) : Prop :=
  forall x, x ∈ st.1 <-> x ∈ pattern <$> st.2.

(** ** The hook *)

(** The [candidates] of the single-pattern branch of the hook. *)
Definition candidates (event : Hook.tool_event) : list string :=
  let primary := extractPattern (Hook.toolName event) (Hook.input event) in
  let secondary :=
    if String.eqb (Hook.toolName event) "grep" ||
       String.eqb (Hook.toolName event) "bash"
    then extractFilePatternsFromContent (Hook.content event) 2
    else [] in
  Hook.set_order ∅
    (filter (fun p => Js.truthy p) (option_list primary ++ secondary)).

(** ** The path guard *)

(** [resolved] equals [cwd] or lies under [cwd] followed by the separator. *)
Definition within (cwd resolved : string) : Prop :=
  resolved = cwd \/ exists rest, resolved = (cwd +:+ Path.sep) +:+ rest.

(** ** The MCP client *)

(** A content block the filter of [callTool] keeps: an object of type
    [text], not flagged as an error, with a truthy text. *)
Definition qualifies (c : value) : bool :=
  match c with
  | VObj fields =>
      Mcp.is_string (get "type" fields) "text" &&
      negb (Mcp.truthy (get "isError" fields)) &&
      Mcp.truthy (get "text" fields)
  | _ => false
  end.

(** The text [callTool] joins: the texts of the kept blocks, one per line. *)
Definition joined_text (items : list value) : string :=
  Js.join (String "010" "")
          (Mcp.block_text <$> filter (fun c => qualifies c) items).

(** The client with its [buffer] replaced. *)
Definition with_buffer (b : string) (st : Mcp.client) : Mcp.client :=
  Mcp.Client (Mcp.proc st) b (Mcp.pending st) (Mcp.nextId st)
             (Mcp.startPromise st).

(** The client with its [pending] map replaced. *)
Definition with_pending (p : list (Z * Mcp.waiter)) (st : Mcp.client)
  : Mcp.client :=
  Mcp.Client (Mcp.proc st) (Mcp.buffer st) p (Mcp.nextId st)
             (Mcp.startPromise st).

(** The [data] handler run on each chunk of a sequence. *)
Fixpoint feed (JSON_parse : string -> option value) (st : Mcp.client)
    (chunks : list string) : Mcp.client * list Mcp.effect :=
  match chunks with
  | [] => (st, [])
  | chunk :: rest =>
      let '(st1, e1) := Mcp.on_data JSON_parse st chunk in
      let '(st2, e2) := feed JSON_parse st1 rest in
      (st2, e1 ++ e2)
  end.

(** What resolving the waiter [w] with [line] does outside the client. *)
Definition resolution (JSON_parse : string -> option value) (w : Mcp.waiter)
    (line : string) : list Mcp.effect :=
  match w with
  | Mcp.InitWaiter h => [Mcp.StdinWrite h Mcp.MInitialized; Mcp.StartResolved]
  | Mcp.CallWaiter k => [Mcp.Settle k (Mcp.callTool_resolve JSON_parse line)]
  end.

(** [callTool] reaches its id allocation: the action is the continuation
    of a call and the client holds a process. *)
Definition allocates (st : Mcp.client) (a : Mcp.action) : bool :=
  match a, Mcp.proc st with
  | Mcp.AIssue _ _ _ _, Some _ => true
  | _, _ => false
  end.

(** ** The one-shot invoker *)

(** What [runAugment] resolves to when [e] is the first event other than
    [data], the captured output being [out]. *)
Definition settlement (out : string) (e : Augment.event) : string :=
  match e with
  | Augment.EClose (Some 0%Z) => Js.slice0 MAX_OUTPUT_CHARS (Js.trim out)
  | _ => ""
  end.

(** The data chunks among [events], one after the other: what the child
    has written to its standard error. *)
Fixpoint captured (events : list Augment.event) : string :=
  match events with
  | [] => ""
  | Augment.EData chunk :: rest => chunk +:+ captured rest
  | _ :: rest => captured rest
  end.

(** ** Further vocabulary *)

(** The final test of [extractPattern]. *)
Definition at_least_3 (pattern : option string) : option string :=
  match pattern with
  | Some p =>
      if negb (Js.truthy p) || (String.length p <? 3)%nat then None else Some p
  | None => None
  end.

(** The directory the loop of [findGitNexusIndex] looks at in its
    iteration [k], as long as it has not stopped. *)
Fixpoint ancestor (process_cwd : string) (k : nat) (dir : string) : string :=
  match k with
  | O => dir
  | S k' => ancestor process_cwd k' (Path.resolve process_cwd dir "..")
  end.

(** The working directory the hook hands to [runAugment]. *)
Definition hook_cwd (st : Hook.session) (ctx_cwd : string) : string :=
  if Js.truthy (Hook.sessionCwd st) then Hook.sessionCwd st else ctx_cwd.

(** What rejecting the waiter [w] does outside the client. *)
Definition rejection (w : Mcp.waiter) : list Mcp.effect :=
  match w with
  | Mcp.InitWaiter _ => [Mcp.StartRejected]
  | Mcp.CallWaiter k => [Mcp.Settle k ""]
  end.

(** The client with its [nextId] replaced. *)
Definition with_nextId (n : Z) (st : Mcp.client) : Mcp.client :=
  Mcp.Client (Mcp.proc st) (Mcp.buffer st) (Mcp.pending st) n
             (Mcp.startPromise st).

(** The keys of [pending] are distinct, and each is the handshake id or an
    id already allocated. *)
Definition pending_ok (st : Mcp.client) : Prop :=
  NoDup (Mcp.pending st).*1 /\
  Forall (fun id => id = 1 \/ 2 <= id < Mcp.nextId st)%Z (Mcp.pending st).*1 /\
  (2 <= Mcp.nextId st)%Z.

(** * Sample data *)

Definition code_file (p : string) : value := VObj [("path", VStr p)].

(** A [read_many] input of six code files. *)
Definition six_files : list (string * value) :=
  [("files",
    VArr [code_file "src/bank.sol"; code_file "src/token.sol";
          code_file "src/vault.sol"; code_file "src/oracle.sol";
          code_file "src/router.sol"; code_file "src/factory.sol"])].

(** A fresh session in [/home/u/proj], which holds an index. *)
Definition sample_session : Hook.session :=
  Hook.Session true 0 0 ∅ "/home/u/proj" ∅.
Definition sample_existsSync (p : string) : bool :=
  String.eqb p "/home/u/proj/.gitnexus".
Definition sample_runAugment (p cwd : string) : string :=
  "Called by: " +:+ p.

Definition read_many_event : Hook.tool_event :=
  Hook.ToolEvent "read_many" six_files [Block "text" (Some "six files")].
Definition grep_event : Hook.tool_event :=
  Hook.ToolEvent "grep" [("pattern", VStr "withdraw")]
    [Block "text" (Some "src/bank.sol:12:  function withdraw() public {")].

(** Parameters of [gitnexus_context] whose file is in a sibling of the
    working directory. *)
Definition sibling_params : Tools.context_params :=
  Tools.ContextParams (Some "withdraw") None (Some "../proj-evil/x.ts") None.

Definition dq : string := String "034" "".
Definition quoted (s : string) : string := dq +:+ s +:+ dq.

(** The response line for request 1 (the handshake), with an empty result. *)
Definition line_init : string :=
  "{" +:+ quoted "id" +:+ ":1," +:+ quoted "result" +:+ ":{}}".
Definition msg_init : value :=
  VObj [("id", VNum (num_of_Z 1)); ("result", VObj [])].

(** The response line for request 2 with one text block, [alpha]. *)
Definition line_alpha : string :=
  "{" +:+ quoted "id" +:+ ":2," +:+ quoted "result" +:+ ":{" +:+
  quoted "content" +:+ ":[{" +:+ quoted "type" +:+ ":" +:+ quoted "text" +:+
  "," +:+ quoted "text" +:+ ":" +:+ quoted "alpha" +:+ "}]}}".
Definition msg_alpha : value :=
  VObj [("id", VNum (num_of_Z 2));
        ("result",
         VObj [("content",
                VArr [VObj [("type", VStr "text"); ("text", VStr "alpha")]])])].

(** The response line for request 3 with an empty content list. *)
Definition line_empty : string :=
  "{" +:+ quoted "id" +:+ ":3," +:+ quoted "result" +:+ ":{" +:+
  quoted "content" +:+ ":[]}}".
Definition msg_empty : value :=
  VObj [("id", VNum (num_of_Z 3)); ("result", VObj [("content", VArr [])])].

(** [JSON.parse] on the three lines above; a syntax error elsewhere. *)
Definition sample_parse (raw : string) : option value :=
  if String.eqb raw line_init then Some msg_init
  else if String.eqb raw line_alpha then Some msg_alpha
  else if String.eqb raw line_empty then Some msg_empty
  else None.

(** A client with two calls outstanding. *)
Definition two_pending : Mcp.client :=
  Mcp.Client (Some 1%nat) ""
             [(2%Z, Mcp.CallWaiter 7); (3%Z, Mcp.CallWaiter 8)] 4 true.

(** * Facts about the string primitives *)
Section StringFacts.

Lemma append_cons (c : ascii) (s t : string) :
  String c s +:+ t = String c (s +:+ t).
Proof. reflexivity. Qed.

Lemma append_length (s t : string) :
  String.length (s +:+ t) = (String.length s + String.length t)%nat.
Proof.
  induction s as [|c s IH]; [done|].
  rewrite append_cons. simpl. by rewrite IH.
Qed.

Lemma append_nil_r (s : string) : s +:+ "" = s.
Proof.
  induction s as [|c s IH]; [done|]. by rewrite append_cons, IH.
Qed.

Lemma append_assoc (s t u : string) : (s +:+ t) +:+ u = s +:+ (t +:+ u).
Proof.
  induction s as [|c s IH]; [done|].
  rewrite !append_cons. by rewrite IH.
Qed.

Lemma remove_id (cls : ascii -> bool) (s : string) :
  Js.forallb (fun c => negb (cls c)) s = true -> Js.remove cls s = s.
Proof.
  induction s as [|c s IH]; simpl; [done|].
  intros [Hc Hs]%andb_true_iff. apply negb_true_iff in Hc.
  rewrite Hc. f_equal. by apply IH.
Qed.

Lemma forallb_weaken (p q : ascii -> bool) (s : string) :
  (forall c, p c = true -> q c = true) ->
  Js.forallb p s = true -> Js.forallb q s = true.
Proof.
  intros Hpq. induction s as [|c s IH]; simpl; [done|].
  intros [Hc Hs]%andb_true_iff. rewrite (Hpq _ Hc). by apply IH.
Qed.

Lemma truthy_length (s : string) :
  (1 <= String.length s)%nat -> Js.truthy s = true.
Proof. destruct s; simpl; [lia|done]. Qed.

Lemma startsWith_spec (s p : string) :
  Js.startsWith s p = true <-> exists rest, s = p +:+ rest.
Proof.
  unfold Js.startsWith. revert s.
  induction p as [|c p IH]; intros s; simpl.
  - split; [intros _; by exists s|]. by destruct s.
  - destruct s as [|d s]; simpl.
    + split; [done|]. by intros [rest ?].
    + destruct (ascii_dec c d) as [->|Hne].
      * rewrite IH. split; intros [rest Hr]; exists rest.
        -- by rewrite Hr.
        -- by injection Hr.
      * split; [done|]. intros [rest Hr]. injection Hr as ? ?. congruence.
Qed.

Lemma slice0_length (n : nat) (s : string) :
  (String.length (Js.slice0 n s) <= n)%nat.
Proof.
  unfold Js.slice0. revert s.
  induction n as [|n IH]; intros [|c s]; simpl; try lia.
  specialize (IH s). lia.
Qed.

Lemma slice0_short (n : nat) (s : string) :
  (String.length s <= n)%nat -> Js.slice0 n s = s.
Proof.
  unfold Js.slice0. revert s.
  induction n as [|n IH]; intros [|c s]; simpl; try done; try lia.
  intros Hle. f_equal. apply IH. lia.
Qed.

Lemma slice0_long (n : nat) (s : string) :
  (n <= String.length s)%nat -> String.length (Js.slice0 n s) = n.
Proof.
  unfold Js.slice0. revert s.
  induction n as [|n IH]; intros [|c s]; simpl; try done; try lia.
  intros Hle. f_equal. apply IH. lia.
Qed.

End StringFacts.

(** * The pattern extractor *)
Section ExtractPatternFacts.

Lemma flag_not_grep (tok : string) :
  Js.startsWith tok "-" = true -> is_grep_cmd tok = false.
Proof.
  intros [rest ->]%startsWith_spec. reflexivity.
Qed.

Lemma scan_tokens_inert (pre rest : list string) :
  Forall inert pre ->
  scan_tokens false false (pre ++ rest) = scan_tokens false false rest.
Proof.
  induction 1 as [|tok pre (Hg & Hf & Hn) _ IH]; simpl; [done|].
  rewrite Hg, Hf, Hn. simpl.
  by destruct (String.eqb tok "find").
Qed.

Lemma scan_tokens_flags (foundFileCmd : bool) (flags rest : list string) :
  Forall (fun tok => Js.startsWith tok "-" = true) flags ->
  scan_tokens true foundFileCmd (flags ++ rest)
  = scan_tokens true foundFileCmd rest.
Proof.
  induction 1 as [|tok flags Hflag _ IH]; simpl; [done|].
  by rewrite (flag_not_grep _ Hflag), Hflag.
Qed.

Lemma strip_plain (expr : string) :
  Js.forallb plain_char expr = true -> strip_meta (strip_quotes expr) = expr.
Proof.
  intros Hplain. unfold strip_meta, strip_quotes.
  rewrite (remove_id Js.is_quote).
  - apply remove_id. revert Hplain. apply forallb_weaken.
    unfold plain_char. intros c. by intros [? ?]%andb_true_iff.
  - revert Hplain. apply forallb_weaken.
    unfold plain_char. intros c. by intros [? ?]%andb_true_iff.
Qed.

Lemma scan_tokens_grep (pre flags rest : list string) (g expr : string) :
  Forall inert pre ->
  is_grep_cmd g = true ->
  Forall (fun tok => Js.startsWith tok "-" = true) flags ->
  is_grep_cmd expr = false ->
  Js.startsWith expr "-" = false ->
  scan_tokens false false (pre ++ g :: flags ++ expr :: rest)
  = Some (strip_meta (strip_quotes expr)).
Proof.
  intros Hpre Hg Hflags Hexpr Hdash.
  rewrite scan_tokens_inert by done. simpl. rewrite Hg.
  rewrite scan_tokens_flags by done. simpl.
  by rewrite Hexpr, Hdash.
Qed.

Lemma extractPattern_grep_tool (input : list (string * value)) (raw : string) :
  get "pattern" input = Some (VStr raw) ->
  extractPattern "grep" input
  = if (String.length (strip_meta raw) <? 3)%nat then None
    else Some (strip_meta raw).
Proof.
  intros Hget. unfold extractPattern. simpl. rewrite Hget. simpl.
  destruct raw as [|c raw]; [done|]. simpl Js.truthy. cbv iota.
  destruct (strip_meta (String c raw)) as [|d s] eqn:Hs; [done|].
  reflexivity.
Qed.

Lemma rev_app_rev_app (s t u : string) :
  String.rev_app (String.rev_app s t) u = String.rev_app t (s +:+ u).
Proof.
  revert t u. induction s as [|c s IH]; intros t u; simpl; [done|].
  by rewrite IH.
Qed.

Lemma rev_involutive (s : string) : String.rev (String.rev s) = s.
Proof.
  unfold String.rev. rewrite rev_app_rev_app. simpl. apply append_nil_r.
Qed.

(** A string without white space is one token. *)
Lemma split_ws_go_word (w : string) :
  forall (cur : string) (in_ws : bool),
    Js.forallb (fun c => negb (Js.is_space c)) w = true ->
    Js.split_ws_go cur in_ws w = [String.rev (String.rev_app w cur)].
Proof.
  induction w as [|c w IH]; intros cur in_ws; simpl; [done|].
  intros [Hc Hw]%andb_true_iff. apply negb_true_iff in Hc.
  rewrite Hc. by apply IH.
Qed.

(** The simplest case: the command [grep <expr>]. *)
Corollary extractPattern_bash_grep_simple (expr : string) :
  Js.forallb (fun c => negb (Js.is_space c)) expr = true ->
  Js.forallb plain_char expr = true ->
  Js.startsWith expr "-" = false ->
  is_grep_cmd expr = false ->
  (3 <= String.length expr)%nat ->
  extractPattern "bash" [("command", VStr ("grep " +:+ expr))] = Some expr.
Proof.
  intros Hword Hplain Hdash Hgrep Hlen.
  assert (Js.split_ws ("grep " +:+ expr) = ["grep"; expr]) as Htokens.
  { change ("grep " +:+ expr)
      with (String "g" (String "r" (String "e" (String "p" (String " " expr))))).
    unfold Js.split_ws. simpl.
    rewrite (split_ws_go_word expr "" true Hword).
    fold (String.rev expr). by rewrite rev_involutive. }
  transitivity
    (match scan_tokens false false (Js.split_ws ("grep " +:+ expr)) with
     | Some p =>
         if negb (Js.truthy p) || (String.length p <? 3)%nat then None
         else Some p
     | None => None
     end); [reflexivity|].
  rewrite Htokens.
  change ["grep"; expr] with ([] ++ "grep" :: [] ++ expr :: []).
  rewrite (scan_tokens_grep [] [] [] "grep" expr) by (done || constructor).
  rewrite strip_plain by done.
  rewrite truthy_length by lia. simpl.
  by apply Nat.ltb_ge in Hlen as ->.
Qed.

End ExtractPatternFacts.

(** C5, as amended. Let the whitespace-separated tokens of a shell command
    be [pre ++ g :: flags ++ expr :: rest], where [g] is [grep] or [rg], no
    token of [pre] arms a rule of the scan (it is none of [grep], [rg],
    [cat], [head], [tail], [less], [wc], [-name], [-iname]), every token of
    [flags] starts with a dash, and [expr] is not [grep] or [rg], does not
    start with a dash, holds no quote and no regex metacharacter and has
    at least 3 characters. Then [extractPattern] with tool name [bash]
    returns [expr] unchanged. For the tool [grep], the candidate is the
    input's [pattern] with every character of the class
    [\ ^ $ . * + ? ( ) [ ] { } |] removed, and null when what is left is
    shorter than 3 characters. *)
Theorem extractPattern_grep_candidate
    (input : list (string * value)) (cmd : string)
    (pre flags rest : list string) (g expr : string) :
  get "command" input = Some (VStr cmd) ->
  Js.split_ws cmd = pre ++ g :: flags ++ expr :: rest ->
  Forall inert pre ->
  is_grep_cmd g = true ->
  Forall (fun tok => Js.startsWith tok "-" = true) flags ->
  is_grep_cmd expr = false ->
  Js.startsWith expr "-" = false ->
  Js.forallb plain_char expr = true ->
  (3 <= String.length expr)%nat ->
  extractPattern "bash" input = Some expr /\
  (forall (input' : list (string * value)) (raw : string),
      get "pattern" input' = Some (VStr raw) ->
      extractPattern "grep" input'
      = if (String.length (strip_meta raw) <? 3)%nat then None
        else Some (strip_meta raw)).
Proof.
  intros Hcmd Htokens Hpre Hg Hflags Hexpr Hdash Hplain Hlen.
  split; [|apply extractPattern_grep_tool].
  unfold extractPattern. simpl. rewrite Hcmd. simpl.
  rewrite Htokens, scan_tokens_grep, strip_plain by done.
  rewrite truthy_length by lia. simpl.
  by apply Nat.ltb_ge in Hlen as ->.
Qed.

Lemma extractPattern_grep_candidate_witness :
  extractPattern "bash" [("command", VStr "cd src && grep -rn withdraw .")]
  = Some "withdraw".
Proof.
  apply (extractPattern_grep_candidate
           [("command", VStr "cd src && grep -rn withdraw .")]
           "cd src && grep -rn withdraw ."
           ["cd"; "src"; "&&"] ["-rn"] ["."] "grep" "withdraw").
  - reflexivity.
  - reflexivity.
  - repeat constructor.
  - reflexivity.
  - repeat constructor.
  - reflexivity.
  - reflexivity.
  - reflexivity.
  - simpl. lia.
Defined.

Lemma extractPattern_grep_counterexample :
  let cmd := "cat main.ts | grep withdraw" in
  Js.split_ws cmd = ["cat"; "main.ts"; "|"; "grep"; "withdraw"] /\
  strip_meta "withdraw" = "withdraw" /\
  (3 <= String.length "withdraw")%nat /\
  extractPattern "bash" [("command", VStr cmd)] = Some "main" /\
  extractPattern "bash" [("command", VStr cmd)] <> Some "withdraw".
Proof.
  repeat split; try reflexivity; [simpl; lia | discriminate].
Qed.

Section BatchFacts.

Lemma add_fresh (st : gset string * list file_pattern) (p : string) :
  eligible p -> stem p ∉ st.1 ->
  add st p = ({[stem p]} ∪ st.1, st.2 ++ [entry p]).
Proof.
  intros [Hext Hlen] Hnew. unfold add. rewrite Hext. simpl.
  apply Nat.ltb_ge in Hlen as ->. simpl.
  by rewrite bool_decide_eq_false_2.
Qed.

Lemma add_skip (st : gset string * list file_pattern) (p : string) :
  ~ (eligible p /\ stem p ∉ st.1) -> add st p = st.
Proof.
  intros Hno. unfold add.
  destruct (is_code_ext (Path.extname p)) eqn:Hext; simpl; [|done].
  destruct (String.length (stem p) <? 3)%nat eqn:Hlen; simpl; [done|].
  apply Nat.ltb_ge in Hlen.
  case_bool_decide as Hin; [done|].
  destruct Hno. by repeat split.
Qed.

Lemma consistent_add (st : gset string * list file_pattern) (p : string) :
  consistent st -> consistent ({[stem p]} ∪ st.1, st.2 ++ [entry p]).
Proof.
  intros Hst x. simpl. rewrite fmap_app, elem_of_app, elem_of_union.
  rewrite (Hst x). simpl. rewrite elem_of_singleton, list_elem_of_singleton.
  tauto.
Qed.

Lemma foldl_add_spec (paths : list string) :
  forall st : gset string * list file_pattern,
    consistent st ->
    consistent (foldl add st paths) /\
    exists new : list file_pattern,
      (foldl add st paths).2 = st.2 ++ new /\
      Forall (fun fp => exists p, fp = entry p /\ eligible p) new /\
      sublist (path <$> new) paths /\
      (NoDup (pattern <$> st.2) -> NoDup (pattern <$> (st.2 ++ new))) /\
      (forall (l1 l2 : list string) (p : string),
          paths = l1 ++ p :: l2 -> eligible p -> stem p ∉ st.1 ->
          (forall q, q ∈ l1 -> eligible q -> stem q <> stem p) ->
          entry p ∈ new).
Proof.
  induction paths as [|p paths IH]; intros st Hst; simpl.
  { split; [done|]. exists []. rewrite app_nil_r.
    split_and!; try done.
    intros [|??] ???; discriminate. }
  destruct (decide (eligible p /\ stem p ∉ st.1)) as [[Hel Hnew]|Hno].
  - rewrite (add_fresh st p Hel Hnew).
    destruct (IH _ (consistent_add st p Hst)) as (Hc & new & Heq & Hok & Hsub & Hnd & Hfirst).
    split; [done|]. exists (entry p :: new). simpl in *.
    rewrite Heq, <- app_assoc. split_and!; try done.
    + constructor; [by exists p|done].
    + by apply sublist_skip.
    + intros Hnd0. rewrite (cons_middle (entry p)), (assoc_L (++)). apply Hnd.
      rewrite fmap_app. simpl. apply NoDup_app. split_and!; [done| |].
      * intros x Hx ->%list_elem_of_singleton. by apply Hnew, Hst.
      * apply NoDup_singleton.
    + intros [|q l1] l2 p0 Hpaths Hel0 Hnew0 Hbefore; simplify_eq/=.
      { apply list_elem_of_here. }
      apply list_elem_of_further. apply (Hfirst l1 l2 p0); [done|done| |].
      * rewrite not_elem_of_union, elem_of_singleton. split; [|done].
        intros Heq0. apply (Hbefore q); [apply list_elem_of_here|done..].
      * intros q' Hq'. apply Hbefore. by apply list_elem_of_further.
  - rewrite (add_skip st p Hno).
    destruct (IH _ Hst) as (Hc & new & Heq & Hok & Hsub & Hnd & Hfirst).
    split; [done|]. exists new. repeat split; try done.
    + by apply sublist_cons.
    + intros [|q l1] l2 p0 Hpaths Hel0 Hnew0 Hbefore; simplify_eq/=.
      { by destruct Hno. }
      apply (Hfirst l1 l2 p0); [done..|].
      intros q' Hq'. apply Hbefore. by apply list_elem_of_further.
Qed.

Lemma consistent_empty : consistent (∅, []).
Proof. intros x. simpl. by rewrite elem_of_nil, elem_of_empty. Qed.

(** What [add] builds from a list of candidate paths. *)
Lemma batch_of_spec (paths : list string) :
  Forall (fun fp => is_code_ext (Path.extname (path fp)) = true /\
                    pattern fp = stem (path fp) /\
                    (3 <= String.length (pattern fp))%nat) (batch_of paths) /\
  NoDup (pattern <$> (batch_of paths)) /\
  sublist (path <$> (batch_of paths)) paths /\
  (forall (l1 l2 : list string) (p : string),
      paths = l1 ++ p :: l2 -> eligible p ->
      (forall q, q ∈ l1 -> eligible q -> stem q <> stem p) ->
      entry p ∈ batch_of paths).
Proof.
  destruct (foldl_add_spec paths (∅, []) consistent_empty)
    as (_ & new & Heq & Hok & Hsub & Hnd & Hfirst).
  unfold batch_of. rewrite Heq. simpl in *. repeat split.
  - eapply Forall_impl; [exact Hok|].
    intros fp (p & -> & Hext & Hlen). by repeat split.
  - apply Hnd. constructor.
  - done.
  - intros l1 l2 p Hp Hel Hbefore. apply (Hfirst l1 l2 p); [done..| |done].
    apply not_elem_of_empty.
Qed.

Lemma foldl_add_file (files : list value) :
  forall st, foldl add_file st files = foldl add st (omap path_of files).
Proof.
  induction files as [|f files IH]; intros st; simpl; [done|].
  unfold add_file at 2. destruct (path_of f); simpl; by rewrite IH.
Qed.

Lemma foldl_add_line (lines : list string) :
  forall st,
    foldl add_line st lines
    = foldl add st (omap (fun line => Js.trim <$> match_at_line line) lines).
Proof.
  induction lines as [|l lines IH]; intros st; simpl; [done|].
  unfold add_line at 2. destruct (match_at_line l); simpl; by rewrite IH.
Qed.

Lemma empty_results_state (paths : list string) :
  batch_of paths = [] -> foldl add (∅, []) paths = (∅, []).
Proof.
  intros Hnil.
  destruct (foldl_add_spec paths (∅, []) consistent_empty) as (Hc & _).
  unfold batch_of in Hnil.
  destruct (foldl add (∅, []) paths) as [seen results]; simpl in *; subst.
  f_equal. apply set_eq. intros x. rewrite (Hc x). simpl.
  by rewrite elem_of_nil, elem_of_empty.
Qed.

(** [extractFilesFromReadMany] is [add] over the paths of [input.files];
    when that leaves [results] empty, over the [@] lines of the text. *)
Lemma extractFilesFromReadMany_unfold
    (input : list (string * value)) (content : list block) :
  extractFilesFromReadMany input content
  = match batch_of (primary_paths input) with
    | [] => batch_of (fallback_paths content)
    | r => r
    end.
Proof.
  unfold extractFilesFromReadMany. rewrite foldl_add_file.
  fold (primary_paths input).
  destruct (batch_of (primary_paths input)) as [|fp r] eqn:Hprim.
  - rewrite (empty_results_state _ Hprim). simpl.
    by rewrite foldl_add_line.
  - unfold batch_of in Hprim. by rewrite Hprim.
Qed.

End BatchFacts.

(** * The [tool_result] hook *)
Section HookSetFacts.
Import Hook.

Lemma set_order_spec (xs : list string) :
  forall seen : gset string,
    NoDup (set_order seen xs) /\
    forall x, x ∈ set_order seen xs -> (x ∉ seen) /\ (x ∈ xs).
Proof.
  induction xs as [|x xs IH]; intros seen; simpl.
  { split; [constructor|]. by intros x ?%elem_of_nil. }
  case_bool_decide as Hx.
  - destruct (IH seen) as [Hnd Hin]. split; [done|].
    intros y Hy. destruct (Hin y Hy). split; [done|by apply list_elem_of_further].
  - destruct (IH ({[x]} ∪ seen)) as [Hnd Hin]. split.
    + constructor; [|done]. intros Hx'. destruct (Hin x Hx') as [Hout _].
      apply Hout, elem_of_union_l. by apply elem_of_singleton.
    + intros y [->|Hy]%elem_of_cons; [split; [done|apply list_elem_of_here]|].
      destruct (Hin y Hy) as [Hout ?]. split; [|by apply list_elem_of_further].
      intros Hy'. apply Hout. by apply elem_of_union_r.
Qed.

Lemma elem_of_add_all (xs : list string) :
  forall (cache : gset string) (x : string),
    x ∈ add_all xs cache <-> x ∈ xs \/ x ∈ cache.
Proof.
  unfold add_all.
  induction xs as [|y xs IH]; intros cache x; simpl.
  { rewrite elem_of_nil. tauto. }
  rewrite IH, elem_of_cons, elem_of_union, elem_of_singleton. tauto.
Qed.

End HookSetFacts.

Section HookFacts.
Import Hook.
Variable existsSync : string -> bool.
Variable process_cwd : string.

(** What the hook has dispatched when it reaches its [await]. *)
Lemma tool_result_begin_job
    (st st1 : session) (event : tool_event) (ctx_cwd cwd : string) (j : job) :
  tool_result_begin existsSync process_cwd st event ctx_cwd = (st1, Some (cwd, j)) ->
  augmentedCache st1 = add_all (job_patterns j) (augmentedCache st) /\
  match j with
  | BatchJob fresh =>
      toolName event = "read_many" /\
      fresh = take 5 (filter (fun f => pattern f ∉ augmentedCache st)
                        (extractFilesFromReadMany (input event) (content event)))
  | SingleJob toRun =>
      toRun = take 3 (filter (fun p => p ∉ augmentedCache st) (candidates event))
  end.
Proof.
  unfold tool_result_begin, candidates.
  destruct (augmentEnabled st); simpl; [|discriminate].
  case_bool_decide; simpl; [|discriminate].
  destruct (findGitNexusIndex _ _ _ _) as [[|] icache]; simpl; [|discriminate].
  destruct (String.eqb (toolName event) "read_many") eqn:Htool.
  - apply String.eqb_eq in Htool.
    destruct (length _ =? 0)%nat; [discriminate|].
    intros [= <- <- <-]. done.
  - destruct (length _ =? 0)%nat; [discriminate|].
    intros [= <- <- <-]. done.
Qed.

Lemma tool_result_begin_idle
    (st st1 : session) (event : tool_event) (ctx_cwd : string) :
  tool_result_begin existsSync process_cwd st event ctx_cwd = (st1, None) ->
  augmentedCache st1 = augmentedCache st.
Proof.
  unfold tool_result_begin.
  destruct (augmentEnabled st); simpl; [|by intros [= <-]].
  case_bool_decide; simpl; [|by intros [= <-]].
  destruct (findGitNexusIndex _ _ _ _) as [[|] icache]; simpl;
    [|by intros [= <-]].
  destruct (String.eqb (toolName event) "read_many");
    (destruct (length _ =? 0)%nat; [by intros [= <-]|discriminate]).
Qed.

Lemma job_patterns_fresh
    (st st1 : session) (event : tool_event) (ctx_cwd cwd : string) (j : job) :
  tool_result_begin existsSync process_cwd st event ctx_cwd = (st1, Some (cwd, j)) ->
  NoDup (job_patterns j) /\
  (forall p, p ∈ job_patterns j -> p ∉ augmentedCache st) /\
  (forall p, p ∈ job_patterns j -> p ∈ augmentedCache st1).
Proof.
  intros Hbegin.
  destruct (tool_result_begin_job _ _ _ _ _ _ Hbegin) as [Hcache Hjob].
  split_and!.
  - destruct j as [fresh|toRun]; simpl.
    + destruct Hjob as [_ ->]. rewrite fmap_take.
      eapply sublist_NoDup; [|apply sublist_take].
      eapply sublist_NoDup; [|apply fmap_sublist, sublist_filter].
      rewrite extractFilesFromReadMany_unfold.
      destruct (batch_of (primary_paths (input event))) eqn:Hprim.
      * apply batch_of_spec.
      * rewrite <- Hprim. apply batch_of_spec.
    + subst toRun.
      eapply sublist_NoDup; [|apply sublist_take].
      eapply sublist_NoDup; [|apply sublist_filter].
      apply set_order_spec.
  - intros p Hp. destruct j as [fresh|toRun]; simpl in Hp.
    + destruct Hjob as [_ ->].
      apply list_elem_of_fmap in Hp as (f & -> & Hf).
      pose proof (elem_of_sublist _ _ _ Hf (sublist_take _ _)) as Hf'.
      by apply list_elem_of_filter in Hf' as [? _].
    + subst toRun.
      pose proof (elem_of_sublist _ _ _ Hp (sublist_take _ _)) as Hp'.
      by apply list_elem_of_filter in Hp' as [? _].
  - intros p Hp. rewrite Hcache. apply elem_of_add_all. by left.
Qed.

Lemma tool_result_finish_cache
    (st : session) (event : tool_event) (j : job) (outs : list string) :
  augmentedCache (tool_result_finish st event j outs).1 = augmentedCache st.
Proof.
  unfold tool_result_finish. destruct j as [fresh|toRun].
  - by destruct (filter _ _).
  - by destruct (negb _).
Qed.

Lemma tool_result_finish_appends
    (st st' : session) (event : tool_event) (j : job) (outs : list string)
    (content' : list block) :
  tool_result_finish st event j outs = (st', Some content') ->
  exists t : string, content' = content event ++ [Block "text" (Some t)].
Proof.
  unfold tool_result_finish. destruct j as [fresh|toRun].
  - destruct (filter _ _) as [|s0 more]; [discriminate|].
    intros [= _ <-]. eauto.
  - destruct (negb _); [discriminate|].
    intros [= _ <-]. eauto.
Qed.

End HookFacts.

(** C3, as amended. [extractFilesFromReadMany] returns the entries [add]
    builds from a list of candidate paths: the [path] fields of
    [input.files], or, when these give no entry (in particular when the
    input carries no [files] list), the trimmed texts after [@] on the
    lines of the result text. Every entry has a path whose extension is in
    [CODE_EXTENSIONS], its pattern is the extension-stripped basename of
    the path and has at least 3 characters; no pattern occurs twice; the
    entries come in the order of the candidate paths, and the first
    eligible path of each pattern is the one kept. The function itself
    does not bound the length of its result: the limit of 5 is applied by
    the [read_many] branch of the hook, to the entries whose pattern is
    not yet in the dedup cache. *)
Theorem extractFilesFromReadMany_batch
    (existsSync : string -> bool) (process_cwd : string)
    (input : list (string * value)) (content : list block) :
  let r := extractFilesFromReadMany input content in
  let paths :=
    match batch_of (primary_paths input) with
    | [] => fallback_paths content
    | _ => primary_paths input
    end in
  Forall (fun fp => is_code_ext (Path.extname (path fp)) = true /\
                    pattern fp = stem (path fp) /\
                    (3 <= String.length (pattern fp))%nat) r /\
  NoDup (pattern <$> r) /\
  sublist (path <$> r) paths /\
  (forall (l1 l2 : list string) (p : string),
      paths = l1 ++ p :: l2 -> eligible p ->
      (forall q, q ∈ l1 -> eligible q -> stem q <> stem p) ->
      entry p ∈ r) /\
  ((forall items, get "files" input <> Some (VArr items)) ->
   r = batch_of (fallback_paths content)) /\
  (forall (st st1 : Hook.session) (event : Hook.tool_event)
          (ctx_cwd cwd : string) (fresh : list file_pattern),
      Hook.tool_result_begin existsSync process_cwd st event ctx_cwd
      = (st1, Some (cwd, Hook.BatchJob fresh)) ->
      (length fresh <= 5)%nat /\
      fresh = take 5 (filter (fun f => pattern f ∉ Hook.augmentedCache st)
                        (extractFilesFromReadMany (Hook.input event)
                                                  (Hook.content event)))).
Proof.
  intros r paths.
  assert (r = batch_of paths) as Hr.
  { unfold r, paths. rewrite extractFilesFromReadMany_unfold.
    by destruct (batch_of (primary_paths input)) eqn:Hprim. }
  destruct (batch_of_spec paths) as (Hok & Hnd & Hsub & Hfirst).
  rewrite <- Hr in Hok, Hnd, Hsub, Hfirst.
  split_and!; try done.
  - intros Hnofiles. unfold r. rewrite extractFilesFromReadMany_unfold.
    unfold primary_paths, files_of.
    destruct (get "files" input) as [[| | | |items|]|] eqn:Hfiles; try done.
    by destruct (Hnofiles items).
  - intros st st1 event ctx_cwd cwd fresh Hbegin.
    destruct (tool_result_begin_job _ _ _ _ _ _ _ _ Hbegin) as [_ [_ ->]].
    split; [|done]. rewrite length_take. lia.
Qed.

Lemma extractFilesFromReadMany_batch_witness :
  extractFilesFromReadMany [] [Block "text" (Some "@src/bank.sol")]
  = batch_of (fallback_paths [Block "text" (Some "@src/bank.sol")]) /\
  exists (st1 : Hook.session) (fresh : list file_pattern),
    Hook.tool_result_begin sample_existsSync "/" sample_session
                           read_many_event "/elsewhere"
    = (st1, Some ("/home/u/proj", Hook.BatchJob fresh)) /\
    pattern <$> fresh = ["bank"; "token"; "vault"; "oracle"; "router"] /\
    (length fresh <= 5)%nat.
Proof.
  pose proof (extractFilesFromReadMany_batch sample_existsSync "/"
                [] [Block "text" (Some "@src/bank.sol")])
    as (_ & _ & _ & _ & Hfallback & Hcap).
  split.
  - apply Hfallback. intros items. discriminate.
  - eexists _, _. split; [vm_compute; reflexivity|].
    split; [reflexivity|].
    eapply (Hcap sample_session _ read_many_event "/elsewhere" "/home/u/proj").
    vm_compute. reflexivity.
Defined.

Lemma extractFilesFromReadMany_uncapped :
  pattern <$> extractFilesFromReadMany six_files []
  = ["bank"; "token"; "vault"; "oracle"; "router"; "factory"] /\
  ~ (length (extractFilesFromReadMany six_files []) <= 5)%nat.
Proof.
  split; [reflexivity|]. vm_compute. lia.
Qed.

Section HookTheorems.
Import Hook.
Variable existsSync : string -> bool.
Variable process_cwd : string.

(** The cache after a whole run is the cache at its [await]. *)
Lemma tool_result_cache (runAugment : string -> string -> string)
    (st : session) (event : tool_event) (ctx_cwd : string) :
  augmentedCache (tool_result existsSync process_cwd runAugment st event ctx_cwd).1.1
  = augmentedCache (tool_result_begin existsSync process_cwd st event ctx_cwd).1.
Proof.
  unfold tool_result.
  destruct (tool_result_begin _ _ st event ctx_cwd) as [st1 [[cwd j]|]]; [|done].
  pose proof (tool_result_finish_cache st1 event j
                ((fun p => runAugment p cwd) <$> job_patterns j)) as Hc.
  by destruct (tool_result_finish _ _ _ _).
Qed.

(** The patterns a run dispatches: distinct, absent from the cache
    before, present in the cache at the [await]. *)
Lemma tool_result_dispatch (runAugment : string -> string -> string)
    (st : session) (event : tool_event) (ctx_cwd : string) :
  let d := (tool_result existsSync process_cwd runAugment st event ctx_cwd).1.2.*1 in
  NoDup d /\
  (forall p, p ∈ d -> (p ∉ augmentedCache st)) /\
  (forall p, p ∈ d ->
     p ∈ augmentedCache (tool_result_begin existsSync process_cwd st event ctx_cwd).1).
Proof.
  unfold tool_result.
  destruct (tool_result_begin _ _ st event ctx_cwd) as [st1 [[cwd j]|]] eqn:Hbegin.
  - destruct (tool_result_finish _ _ _ _) as [st2 r]. simpl.
    rewrite <- list_fmap_compose.
    replace (fst ∘ (fun p => (p, cwd))) with (@id string) by done.
    rewrite list_fmap_id.
    by apply (job_patterns_fresh _ _ _ _ _ _ _ _ Hbegin).
  - simpl. split_and!; [constructor|by intros p ?%elem_of_nil..].
Qed.

(** C4. Run the hook twice in a row on the same event, whatever the
    lookups resolve to: the patterns of all [runAugment] calls of the two
    runs together are pairwise distinct. The candidates are deduplicated
    when the batch is built (both in the single-pattern branch and in
    [extractFilesFromReadMany]); every pattern dispatched by the first run
    was absent from the dedup cache before, is in the cache when the run
    reaches its [await], and is not dispatched again by the second run. *)
Theorem tool_result_twice_dispatches_once
    (runAugment1 runAugment2 : string -> string -> string)
    (st : session) (event : tool_event) (ctx_cwd1 ctx_cwd2 : string) :
  let first := tool_result existsSync process_cwd runAugment1 st event ctx_cwd1 in
  let second :=
    tool_result existsSync process_cwd runAugment2 first.1.1 event ctx_cwd2 in
  NoDup (first.1.2.*1 ++ second.1.2.*1) /\
  NoDup (candidates event) /\
  NoDup (pattern <$> extractFilesFromReadMany (input event) (content event)) /\
  (forall p, p ∈ first.1.2.*1 ->
     (p ∉ augmentedCache st) /\
     (p ∈ augmentedCache
            (tool_result_begin existsSync process_cwd st event ctx_cwd1).1) /\
     (p ∉ second.1.2.*1)).
Proof.
  intros first second.
  destruct (tool_result_dispatch runAugment1 st event ctx_cwd1)
    as (Hnd1 & Hnew1 & Hin1).
  destruct (tool_result_dispatch runAugment2 first.1.1 event ctx_cwd2)
    as (Hnd2 & Hnew2 & _).
  fold first in Hnd1, Hnew1, Hin1. fold second in Hnd2, Hnew2.
  assert (forall p, p ∈ first.1.2.*1 -> p ∉ second.1.2.*1) as Hdisj.
  { intros p Hp Hp2. apply (Hnew2 p Hp2).
    unfold first. rewrite tool_result_cache. by apply Hin1. }
  split_and!.
  - apply NoDup_app. by split_and!.
  - apply set_order_spec.
  - rewrite extractFilesFromReadMany_unfold.
    destruct (batch_of (primary_paths (input event))) eqn:Hprim.
    + apply batch_of_spec.
    + rewrite <- Hprim. apply batch_of_spec.
  - intros p Hp. split_and!; auto.
Qed.

(** C7. Whenever the hook returns a content, in the single-pattern branch
    as in the [read_many] branch, it is the content of the event followed
    by exactly one new block, of type [text]: the original blocks are all
    there, unchanged and in their order. *)
Theorem tool_result_append_only
    (runAugment : string -> string -> string)
    (st st' : session) (event : tool_event) (ctx_cwd : string)
    (calls : list (string * string)) (content' : list block) :
  tool_result existsSync process_cwd runAugment st event ctx_cwd
  = (st', calls, Some content') ->
  exists t : string,
    content' = content event ++ [Block "text" (Some t)] /\
    take (length (content event)) content' = content event /\
    length content' = S (length (content event)).
Proof.
  unfold tool_result.
  destruct (tool_result_begin _ _ st event ctx_cwd) as [st1 [[cwd j]|]];
    [|discriminate].
  destruct (tool_result_finish _ _ _ _) as [st2 r] eqn:Hfinish.
  intros [= <- <- ->].
  apply tool_result_finish_appends in Hfinish as [t ->].
  exists t. split_and!; [done| |].
  - by rewrite take_app_length.
  - rewrite length_app. simpl. lia.
Qed.

End HookTheorems.

(** On the sample [grep] event the first run looks up the search
    expression and the file named in the result; the second run looks up
    nothing. *)
Example tool_result_twice_example :
  let first :=
    Hook.tool_result sample_existsSync "/" sample_runAugment
                     sample_session grep_event "/elsewhere" in
  let second :=
    Hook.tool_result sample_existsSync "/" sample_runAugment
                     first.1.1 grep_event "/elsewhere" in
  first.1.2 = [("withdraw", "/home/u/proj"); ("bank", "/home/u/proj")] /\
  second.1.2 = [] /\ second.2 = None.
Proof. vm_compute. done. Qed.

Lemma tool_result_append_only_witness :
  exists t : string,
    default [] (Hook.tool_result sample_existsSync "/" sample_runAugment
                  sample_session grep_event "/elsewhere").2
    = Hook.content grep_event ++ [Block "text" (Some t)] /\
    take (length (Hook.content grep_event))
         (default [] (Hook.tool_result sample_existsSync "/" sample_runAugment
                        sample_session grep_event "/elsewhere").2)
    = Hook.content grep_event /\
    length (default [] (Hook.tool_result sample_existsSync "/" sample_runAugment
                          sample_session grep_event "/elsewhere").2)
    = S (length (Hook.content grep_event)).
Proof.
  apply (tool_result_append_only sample_existsSync "/" sample_runAugment
           sample_session
           (Hook.tool_result sample_existsSync "/" sample_runAugment
              sample_session grep_event "/elsewhere").1.1
           grep_event "/elsewhere"
           (Hook.tool_result sample_existsSync "/" sample_runAugment
              sample_session grep_event "/elsewhere").1.2).
  vm_compute. reflexivity.
Defined.

(** * The path guard of [gitnexus_context] *)

Section PathGuard.
Variable existsSync : string -> bool.
Variable process_cwd : string.

Lemma safeResolvePath_within (file cwd : string) :
  within cwd (Path.resolve process_cwd cwd file) ->
  safeResolvePath process_cwd file cwd = Some (Path.resolve process_cwd cwd file).
Proof.
  unfold safeResolvePath. intros [Heq|Hunder%startsWith_spec].
  - rewrite Heq at 2. rewrite String.eqb_refl. by rewrite orb_true_r.
  - by rewrite Hunder.
Qed.

Lemma safeResolvePath_escapes (file cwd : string) :
  ~ within cwd (Path.resolve process_cwd cwd file) ->
  safeResolvePath process_cwd file cwd = None.
Proof.
  unfold safeResolvePath. intros Hout.
  destruct (Js.startsWith _ _) eqn:Hunder; cbn [orb].
  { destruct Hout. right. by apply startsWith_spec. }
  destruct (String.eqb_spec (Path.resolve process_cwd cwd file) cwd) as [Heq|Hne];
    [|done].
  destruct Hout. by left.
Qed.

Lemma safeResolvePath_some (file cwd resolved : string) :
  safeResolvePath process_cwd file cwd = Some resolved ->
  resolved = Path.resolve process_cwd cwd file /\ within cwd resolved.
Proof.
  unfold safeResolvePath.
  destruct (Js.startsWith _ _) eqn:Hunder; cbn [orb].
  { intros [= <-]. split; [done|]. right. by apply startsWith_spec. }
  destruct (String.eqb_spec (Path.resolve process_cwd cwd file) cwd) as [Heq|Hne];
    [|done].
  intros [= <-]. split; [done|]. by left.
Qed.

(** A path that continues [cwd] with anything but a separator is not
    within [cwd]. *)
Lemma sibling_not_within (cwd suffix : string) (c : ascii) :
  c <> "/"%char -> ~ within cwd (cwd +:+ String c suffix).
Proof.
  intros Hc [Heq|[rest Heq]].
  - apply (f_equal String.length) in Heq.
    rewrite append_length in Heq. simpl in Heq. lia.
  - rewrite append_assoc in Heq. apply (inj _) in Heq.
    injection Heq as Heq _. done.
Qed.

(** C8. For a non-empty [file] parameter of [gitnexus_context],
    [safeResolvePath file cwd] returns the resolved path when it equals
    [cwd] or starts with [cwd] followed by the separator, and null
    otherwise: in particular for a resolved path that continues the string
    [cwd] with a character other than the separator (a sibling directory).
    When it returns null the tool never calls the backend; once the index
    is found and a name or uid is given, it answers [Invalid file path.]. *)
Theorem safeResolvePath_guard
    (icache : gmap string bool) (params : Tools.context_params)
    (file cwd : string) :
  let resolved := Path.resolve process_cwd cwd file in
  Tools.file params = Some file ->
  file <> "" ->
  (within cwd resolved ->
   safeResolvePath process_cwd file cwd = Some resolved) /\
  (~ within cwd resolved ->
   safeResolvePath process_cwd file cwd = None /\
   (forall tool args,
       (Tools.context_execute existsSync process_cwd icache params cwd).2
       <> Tools.CallBackend tool args) /\
   ((Hook.findGitNexusIndex existsSync process_cwd icache cwd).1 = true ->
    Tools.given (Tools.name params) || Tools.given (Tools.uid params) = true ->
    (Tools.context_execute existsSync process_cwd icache params cwd).2
    = Tools.Answer "Invalid file path.")) /\
  (forall suffix c,
      c <> "/"%char -> resolved = cwd +:+ String c suffix ->
      safeResolvePath process_cwd file cwd = None).
Proof.
  intros resolved Hfile Hnonempty. split_and!.
  - apply safeResolvePath_within.
  - intros Hout. pose proof (safeResolvePath_escapes file cwd Hout) as Hnone.
    assert (Tools.given (Tools.file params) = true) as Hgiven.
    { rewrite Hfile. simpl. by destruct file. }
    split_and!; [done| |].
    + intros tool args. unfold Tools.context_execute.
      destruct (Hook.findGitNexusIndex _ _ _ _) as [[|] icache']; simpl; [|done].
      destruct (negb _ && negb _); [done|].
      rewrite Hgiven, Hfile. simpl. by rewrite Hnone.
    + unfold Tools.context_execute.
      destruct (Hook.findGitNexusIndex _ _ _ _) as [found icache']; simpl.
      intros -> Hid. simpl.
      destruct (Tools.given (Tools.name params)),
               (Tools.given (Tools.uid params)); try done;
        simpl; rewrite Hgiven, Hfile; simpl; by rewrite Hnone.
  - intros suffix c Hc Hres. apply safeResolvePath_escapes.
    fold resolved. rewrite Hres. by apply sibling_not_within.
Qed.

End PathGuard.

Lemma safeResolvePath_guard_witness :
  Path.resolve "/" "/home/u/proj" "../proj-evil/x.ts" = "/home/u/proj-evil/x.ts" /\
  safeResolvePath "/" "../proj-evil/x.ts" "/home/u/proj" = None /\
  (Tools.context_execute
     (fun p => String.eqb p "/home/u/proj/.gitnexus") "/" ∅
     sibling_params "/home/u/proj").2
  = Tools.Answer "Invalid file path." /\
  safeResolvePath "/" "src/x.ts" "/home/u/proj" = Some "/home/u/proj/src/x.ts".
Proof.
  pose proof (safeResolvePath_guard
                (fun p => String.eqb p "/home/u/proj/.gitnexus") "/" ∅
                sibling_params "../proj-evil/x.ts" "/home/u/proj"
                eq_refl ltac:(discriminate)) as (_ & Hout & Hsibling).
  pose proof (safeResolvePath_guard
                (fun p => String.eqb p "/home/u/proj/.gitnexus") "/" ∅
                (Tools.ContextParams (Some "withdraw") None (Some "src/x.ts") None)
                "src/x.ts" "/home/u/proj"
                eq_refl ltac:(discriminate)) as (Hin & _ & _).
  assert (~ within "/home/u/proj"
              (Path.resolve "/" "/home/u/proj" "../proj-evil/x.ts")) as Hescapes.
  { change (Path.resolve "/" "/home/u/proj" "../proj-evil/x.ts")
      with ("/home/u/proj" +:+ String "-" "evil/x.ts").
    apply sibling_not_within. discriminate. }
  destruct (Hout Hescapes) as (_ & _ & Hanswer).
  split_and!.
  - reflexivity.
  - apply (Hsibling "evil/x.ts" "-"%char); [discriminate|reflexivity].
  - apply Hanswer; reflexivity.
  - apply Hin. right. exists "src/x.ts". reflexivity.
Defined.

(** * The result interpretation of [callTool] *)

Section ResolveFacts.
Import Mcp.

Lemma is_text_block_qualifies (c : value) :
  c <> VNull -> is_text_block c = Ok (qualifies c).
Proof.
  intros Hc. destruct c as [| | | | |fields]; try done. simpl.
  unfold is_text_block. simpl.
  destruct (is_string (get "type" fields) "text"); [|done]. simpl.
  by destruct (truthy (get "isError" fields)).
Qed.

Lemma filter_blocks_qualifies (items : list value) :
  Forall (fun c => c <> VNull) items ->
  filter_blocks items = Ok (filter (fun c => qualifies c) items).
Proof.
  induction 1 as [|c items Hc _ IH]; [done|].
  simpl. rewrite (is_text_block_qualifies c Hc), IH. simpl.
  rewrite filter_cons. by destruct (qualifies c).
Qed.



End ResolveFacts.

Section ResolveTheorems.
Import Mcp.
Variable JSON_parse : string -> option value.


(** C1, as amended. For a response line that parses to an object:
    [callTool] resolves to the empty string when the [error] field is
    truthy, when [result] is missing or null, when [result.content] is
    missing (or otherwise falsy), and when [result.isError] is truthy.
    Otherwise, when [result.content] is a list of blocks of which at least
    one is of type [text], not flagged as an error and with a non-empty
    text, it resolves to the label [[GitNexus]] and a line break followed
    by the newline-joined texts of exactly these blocks, cut to
    [MAX_OUTPUT_CHARS] characters. *)
Theorem callTool_resolve_cases
    (raw : string) (fields : list (string * value)) :
  JSON_parse raw = Some (VObj fields) ->
  (truthy (get "error" fields) = true ->
   callTool_resolve JSON_parse raw = "") /\
  (truthy (get "error" fields) = false ->
   (get "result" fields = None \/ get "result" fields = Some VNull ->
    callTool_resolve JSON_parse raw = "") /\
   (forall rfields : list (string * value),
       get "result" fields = Some (VObj rfields) ->
       (truthy (get "content" rfields) = false ->
        callTool_resolve JSON_parse raw = "") /\
       (truthy (get "isError" rfields) = true ->
        callTool_resolve JSON_parse raw = "") /\
       (forall items : list value,
           get "content" rfields = Some (VArr items) ->
           truthy (get "isError" rfields) = false ->
           Forall (fun c => c <> VNull) items ->
           filter (fun c => qualifies c) items <> [] ->
           callTool_resolve JSON_parse raw
           = label +:+ Js.slice0 MAX_OUTPUT_CHARS (joined_text items)))).
Proof.
  intros Hparse. unfold callTool_resolve, parse. rewrite Hparse. simpl.
  unfold callTool_resolve_body. simpl.
  split; [by intros ->|]. intros ->.
  split.
  { by intros [-> | ->]. }
  intros rfields ->. simpl. split_and!.
  - by intros ->.
  - intros ->. by destruct (truthy (get "content" rfields)).
  - intros items -> -> Hblocks _. simpl.
    by rewrite (filter_blocks_qualifies items Hblocks).
Qed.

End ResolveTheorems.

Lemma callTool_resolve_cases_witness :
  Mcp.callTool_resolve sample_parse line_alpha
  = Mcp.label +:+ Js.slice0 MAX_OUTPUT_CHARS "alpha".
Proof.
  pose proof (callTool_resolve_cases sample_parse line_alpha _ eq_refl)
    as [_ Hok].
  destruct (Hok eq_refl) as [_ Hresult].
  destruct (Hresult _ eq_refl) as (_ & _ & Hcontent).
  apply (Hcontent _ eq_refl eq_refl).
  - repeat constructor; discriminate.
  - discriminate.
Defined.

Lemma callTool_resolve_counterexample :
  sample_parse line_alpha = Some msg_alpha /\
  Mcp.callTool_resolve sample_parse line_alpha = Mcp.label +:+ "alpha" /\
  Mcp.callTool_resolve sample_parse line_alpha <> "alpha" /\
  sample_parse line_empty = Some msg_empty /\
  Mcp.callTool_resolve sample_parse line_empty = Mcp.label /\
  Mcp.callTool_resolve sample_parse line_empty <> "".
Proof.
  split_and!; try reflexivity; vm_compute; discriminate.
Qed.

(** * Framing of the transport *)
Section SplitFacts.

Lemma split_nonempty (sep : ascii) (s : string) : Js.split sep s <> [].
Proof.
  destruct s as [|c s]; simpl; [done|].
  destruct (Ascii.eqb c sep); [done|]. by destruct (Js.split sep s).
Qed.

Lemma removelast_cons {A : Type} (x : A) (l : list A) :
  l <> [] -> removelast (x :: l) = x :: removelast l.
Proof. by destruct l. Qed.

Lemma last_cons_nonempty {A : Type} (x : A) (l : list A) :
  l <> [] -> last (x :: l) = last l.
Proof. by destruct l. Qed.

(** Splitting a stream that arrives in two parts: the complete pieces of
    the first part, then the pieces of its unfinished piece followed by
    the second part. *)
Lemma split_app (sep : ascii) (a b : string) :
  Js.split sep (a +:+ b)
  = removelast (Js.split sep a)
    ++ Js.split sep (default "" (last (Js.split sep a)) +:+ b).
Proof.
  induction a as [|c a IH]; [done|].
  rewrite append_cons. simpl.
  pose proof (split_nonempty sep a) as Hne.
  destruct (Ascii.eqb c sep) eqn:Hc.
  - rewrite removelast_cons, last_cons_nonempty by done.
    simpl. by rewrite IH.
  - rewrite IH.
    destruct (Js.split sep a) as [|piece [|piece' rest]]; [done| |].
    + simpl. by rewrite Hc.
    + by rewrite !removelast_cons, !last_cons_nonempty by done.
Qed.

Lemma split_last_piece (sep : ascii) (s piece : string) :
  last (Js.split sep s) = Some piece -> Js.split sep piece = [piece].
Proof.
  revert piece. induction s as [|c s IH]; intros piece; simpl.
  { by intros [= <-]. }
  pose proof (split_nonempty sep s) as Hne.
  destruct (Ascii.eqb c sep) eqn:Hc.
  - rewrite last_cons_nonempty by done. apply IH.
  - destruct (Js.split sep s) as [|x [|y rest]]; [done| |].
    + intros [= <-]. simpl. rewrite Hc. by rewrite (IH x).
    + rewrite last_cons_nonempty by done. apply IH.
Qed.

(** A piece followed by the separator: the piece, complete, and an empty
    unfinished one. *)
Lemma split_snoc_sep (sep : ascii) (s : string) :
  Js.split sep s = [s] -> Js.split sep (s +:+ String sep "") = [s; ""].
Proof.
  induction s as [|c s IH]; simpl.
  { intros _. by rewrite Ascii.eqb_refl. }
  pose proof (split_nonempty sep s) as Hne.
  destruct (Ascii.eqb c sep); [intros [= _ Hrest]; done|].
  destruct (Js.split sep s) as [|piece [|piece' rest]] eqn:Hsplit; [done| |done].
  intros [= ->]. by rewrite IH.
Qed.

End SplitFacts.

Section TransportFacts.
Import Mcp.
Variable JSON_parse : string -> option value.

Lemma resolve_buffer (w : waiter) (line b : string) (st : client) :
  resolve JSON_parse w line (with_buffer b st)
  = (with_buffer b (resolve JSON_parse w line st).1,
     (resolve JSON_parse w line st).2).
Proof. by destruct w. Qed.

Lemma on_line_buffer (st : client) (b line : string) :
  on_line JSON_parse (with_buffer b st) line
  = (with_buffer b (on_line JSON_parse st line).1,
     (on_line JSON_parse st line).2).
Proof.
  unfold on_line. destruct (negb _); [done|].
  unfold on_line_body. destruct (parse JSON_parse line) as [msg|]; [|done].
  simpl. destruct (prop msg "id") as [[id|]|]; try done. simpl.
  destruct (pending_get (pending st) id) as [p|]; [|done]. simpl.
  apply (resolve_buffer p line b
           (Client (proc st) (buffer st) (pending_delete (pending st) id)
                   (nextId st) (startPromise st))).
Qed.

Lemma on_lines_snoc (st : client) (lines : list string) (line : string) :
  on_lines JSON_parse st (lines ++ [line])
  = let r := on_lines JSON_parse st lines in
    let r' := on_line JSON_parse r.1 line in
    (r'.1, r.2 ++ r'.2).
Proof.
  unfold on_lines. rewrite foldl_app. simpl.
  by destruct (on_line _ _ _).
Qed.

Lemma on_lines_buffer (b : string) (lines : list string) (st : client) :
  on_lines JSON_parse (with_buffer b st) lines
  = (with_buffer b (on_lines JSON_parse st lines).1,
     (on_lines JSON_parse st lines).2).
Proof.
  induction lines as [|line lines IH] using rev_ind; [done|].
  rewrite !on_lines_snoc. simpl. rewrite IH. simpl.
  by rewrite on_line_buffer.
Qed.

Lemma on_lines_app (st : client) (l1 l2 : list string) :
  on_lines JSON_parse st (l1 ++ l2)
  = let r1 := on_lines JSON_parse st l1 in
    let r2 := on_lines JSON_parse r1.1 l2 in
    (r2.1, r1.2 ++ r2.2).
Proof.
  induction l2 as [|line l2 IH] using rev_ind; simpl.
  { rewrite !app_nil_r. by destruct (on_lines _ _ _). }
  rewrite (assoc_L (++)), !on_lines_snoc, IH. simpl.
  by rewrite (assoc_L (++)).
Qed.

Lemma on_data_unfold (st : client) (chunk : string) :
  let lines := Js.split "010" (buffer st +:+ chunk) in
  let r := on_lines JSON_parse st (removelast lines) in
  on_data JSON_parse st chunk = (with_buffer (default "" (last lines)) r.1, r.2).
Proof.
  simpl. unfold on_data.
  apply (on_lines_buffer (default "" (last (Js.split "010" (buffer st +:+ chunk))))
                         _ st).
Qed.

Lemma removelast_app_nonempty {A : Type} (l1 l2 : list A) :
  l2 <> [] -> removelast (l1 ++ l2) = l1 ++ removelast l2.
Proof. intros. by apply removelast_app. Qed.

Lemma last_app_nonempty {A : Type} (l1 l2 : list A) :
  l2 <> [] -> last (l1 ++ l2) = last l2.
Proof.
  intros Hne. destruct l2 as [|x l2 _] using rev_ind; [done|].
  by rewrite (assoc_L (++)), !last_snoc.
Qed.

(** The handler leaves no line break in [buffer]. *)
Lemma on_data_buffer (st : client) (chunk : string) :
  Js.split "010" (buffer (on_data JSON_parse st chunk).1)
  = [buffer (on_data JSON_parse st chunk).1].
Proof.
  pose proof (on_data_unfold st chunk) as Hdata. simpl in Hdata.
  rewrite Hdata. simpl.
  destruct (last (Js.split "010" (buffer st +:+ chunk))) as [piece|] eqn:Hlast;
    [|done].
  by apply (split_last_piece "010" (buffer st +:+ chunk)).
Qed.

Lemma with_buffer_twice (a b : string) (st : client) :
  with_buffer a (with_buffer b st) = with_buffer a st.
Proof. done. Qed.

(** Chunk boundaries do not matter: the handler processes, in order, the
    complete lines of the stream, and keeps its unfinished last line. *)
Lemma feed_stream (chunks : list string) :
  forall st : client,
    Js.split "010" (buffer st) = [buffer st] ->
    let lines := Js.split "010" (buffer st +:+ foldr String.append "" chunks) in
    let r := on_lines JSON_parse st (removelast lines) in
    feed JSON_parse st chunks
    = (with_buffer (default "" (last lines)) r.1, r.2).
Proof.
  induction chunks as [|chunk chunks IH]; intros st Hbuf; simpl.
  { rewrite append_nil_r, Hbuf. simpl. by destruct st. }
  pose proof (on_data_unfold st chunk) as Hdata. simpl in Hdata.
  rewrite Hdata. clear Hdata.
  set (lines1 := Js.split "010" (buffer st +:+ chunk)).
  set (r1 := on_lines JSON_parse st (removelast lines1)).
  set (b1 := default "" (last lines1)).
  assert (Js.split "010" (buffer (with_buffer b1 r1.1)) = [b1]) as Hbuf1.
  { simpl. unfold b1.
    destruct (last lines1) as [piece|] eqn:Hlast; [|done].
    by apply (split_last_piece "010" (buffer st +:+ chunk)). }
  rewrite (IH _ Hbuf1). simpl.
  rewrite on_lines_buffer. simpl. rewrite with_buffer_twice.
  rewrite <- append_assoc, (split_app "010" (buffer st +:+ chunk)).
  fold lines1. fold b1.
  pose proof (split_nonempty "010" (b1 +:+ foldr String.append "" chunks)) as Hne.
  rewrite removelast_app_nonempty, last_app_nonempty by done.
  rewrite on_lines_app. simpl. done.
Qed.

End TransportFacts.

Section MapFacts.
Context {V : Type}.

Lemma Map_get_delete_eq (k : Z) (m : list (Z * V)) :
  JsMap.get k (JsMap.delete k m) = None.
Proof.
  induction m as [|[k' v] m IH]; simpl; [done|].
  destruct (decide (k' = k)) as [->|Hne]; [done|].
  simpl. by rewrite decide_False.
Qed.

Lemma Map_get_delete_ne (k k' : Z) (m : list (Z * V)) :
  k' <> k -> JsMap.get k' (JsMap.delete k m) = JsMap.get k' m.
Proof.
  intros Hne. induction m as [|[k0 v] m IH]; simpl; [done|].
  destruct (decide (k0 = k)) as [->|Hk0].
  - by rewrite decide_False.
  - simpl. by rewrite IH.
Qed.

End MapFacts.

Section TransportTheorems.
Import Mcp.
Variable JSON_parse : string -> option value.

Lemma resolve_pending (w : waiter) (line : string) (st : client) :
  pending (resolve JSON_parse w line st).1 = pending st /\
  (resolve JSON_parse w line st).2 = resolution JSON_parse w line.
Proof. by destruct w. Qed.

Lemma on_line_malformed (st : client) (line : string) :
  JSON_parse line = None -> on_line JSON_parse st line = (st, []).
Proof.
  intros Hparse. unfold on_line, on_line_body, parse. rewrite Hparse.
  by destruct (negb _).
Qed.

Lemma on_line_unmatched (st : client) (line : string) (msg : value) :
  JSON_parse line = Some msg ->
  (forall x n,
      prop msg "id" = Ok (Some (VNum x)) -> integer x = Some n ->
      JsMap.get n (pending st) = None) ->
  on_line JSON_parse st line = (st, []).
Proof.
  intros Hparse Hid. unfold on_line, on_line_body, parse. rewrite Hparse.
  destruct (negb _); [done|]. simpl.
  destruct (prop msg "id") as [[id|]|]; try done. simpl.
  destruct id as [| |x| | |]; try done. simpl.
  destruct (integer x) as [n|] eqn:Hx; [|done].
  by rewrite (Hid x n).
Qed.

Lemma on_line_matched (st : client) (line : string) (msg : value)
    (x : number) (n : Z) (w : waiter) :
  Js.truthy (Js.trim line) = true ->
  JSON_parse line = Some msg ->
  prop msg "id" = Ok (Some (VNum x)) ->
  integer x = Some n ->
  JsMap.get n (pending st) = Some w ->
  on_line JSON_parse st line
  = resolve JSON_parse w line (with_pending (JsMap.delete n (pending st)) st).
Proof.
  intros Hblank Hparse Hid Hx Hw. unfold on_line, on_line_body, parse.
  rewrite Hblank, Hparse. simpl. rewrite Hid. simpl. by rewrite Hx, Hw.
Qed.

(** The loop of the handler: [on_line] on each line, in order. *)
Lemma on_lines_nil (st : client) : on_lines JSON_parse st [] = (st, []).
Proof. done. Qed.

Lemma on_lines_one (st : client) (line : string) :
  on_lines JSON_parse st [line] = on_line JSON_parse st line.
Proof. unfold on_lines. simpl. by destruct (on_line _ _ _). Qed.

Lemma on_lines_cons (st : client) (line : string) (lines : list string) :
  on_lines JSON_parse st (line :: lines)
  = let r1 := on_line JSON_parse st line in
    let r2 := on_lines JSON_parse r1.1 lines in
    (r2.1, r1.2 ++ r2.2).
Proof.
  change (line :: lines) with ([line] ++ lines).
  rewrite on_lines_app. simpl. by rewrite on_lines_one.
Qed.

(** One line, complete with its line break, delivered in any number of
    chunks to a client whose buffer is empty. *)
Lemma feed_one_line (st : client) (line : string) (chunks : list string) :
  buffer st = "" ->
  Js.split "010" line = [line] ->
  foldr String.append "" chunks = line +:+ String "010" "" ->
  feed JSON_parse st chunks
  = (with_buffer "" (on_line JSON_parse st line).1,
     (on_line JSON_parse st line).2).
Proof.
  intros Hbuf Hline Hchunks.
  pose proof (feed_stream JSON_parse chunks st) as Hfeed.
  cbv zeta in Hfeed. rewrite Hbuf, Hchunks in Hfeed.
  change ("" +:+ (line +:+ String "010" ""))
    with (line +:+ String "010" "") in Hfeed.
  rewrite (split_snoc_sep "010" line Hline) in Hfeed.
  rewrite Hfeed by done. cbn [removelast last default].
  by rewrite on_lines_one.
Qed.

(** C2. A non-blank line that parses to a message whose [id] is a number
    equal to the integer [n], with [w] registered under [n] in [pending],
    resolves exactly [w]: the effects of the line are those of resolving
    [w], the entry [n] is removed from [pending] and every other entry
    stays. This is what the [data] handler does with the line however the
    line and its line break are cut into chunks. A line that parses to a
    message whose [id] is missing, is no number or is no key of [pending]
    changes nothing and resolves nothing; so does a line that is not
    valid JSON. The handler is total (nothing is thrown). Its loop runs
    the one-line step on each line in order, and for every sequence of
    chunks the handler runs the loop on the complete lines of the
    concatenated stream and keeps the unfinished last line in [buffer]
    (which holds no line break: it is empty at first, and the handler
    never leaves one in it). *)
Theorem on_data_correlates_by_id
    (st : client) (line : string) (msg : value) (x : number) (n : Z)
    (w : waiter) :
  Js.truthy (Js.trim line) = true ->
  JSON_parse line = Some msg ->
  prop msg "id" = Ok (Some (VNum x)) ->
  integer x = Some n ->
  JsMap.get n (pending st) = Some w ->
  (pending (on_line JSON_parse st line).1 = JsMap.delete n (pending st) /\
   JsMap.get n (pending (on_line JSON_parse st line).1) = None /\
   (forall m, m <> n ->
      JsMap.get m (pending (on_line JSON_parse st line).1)
      = JsMap.get m (pending st)) /\
   (on_line JSON_parse st line).2 = resolution JSON_parse w line) /\
  (forall chunks : list string,
      buffer st = "" ->
      Js.split "010" line = [line] ->
      foldr String.append "" chunks = line +:+ String "010" "" ->
      (feed JSON_parse st chunks).2 = resolution JSON_parse w line /\
      pending (feed JSON_parse st chunks).1 = JsMap.delete n (pending st) /\
      (forall m, m <> n ->
         JsMap.get m (pending (feed JSON_parse st chunks).1)
         = JsMap.get m (pending st)) /\
      buffer (feed JSON_parse st chunks).1 = "") /\
  (forall (st' : client) (line' : string) (msg' : value),
      JSON_parse line' = Some msg' ->
      (forall x' m,
          prop msg' "id" = Ok (Some (VNum x')) -> integer x' = Some m ->
          JsMap.get m (pending st') = None) ->
      on_line JSON_parse st' line' = (st', [])) /\
  (forall (st' : client) (line' : string),
      JSON_parse line' = None -> on_line JSON_parse st' line' = (st', [])) /\
  (forall (st' : client) (line' : string) (lines' : list string),
      on_lines JSON_parse st' [] = (st', []) /\
      on_lines JSON_parse st' (line' :: lines')
      = let r1 := on_line JSON_parse st' line' in
        let r2 := on_lines JSON_parse r1.1 lines' in
        (r2.1, r1.2 ++ r2.2)) /\
  (forall (st' : client) (chunks : list string),
      Js.split "010" (buffer st') = [buffer st'] ->
      let lines :=
        Js.split "010" (buffer st' +:+ foldr String.append "" chunks) in
      let r := on_lines JSON_parse st' (removelast lines) in
      feed JSON_parse st' chunks
      = (with_buffer (default "" (last lines)) r.1, r.2)).
Proof.
  intros Hblank Hparse Hid Hx Hw.
  assert (pending (on_line JSON_parse st line).1 = JsMap.delete n (pending st) /\
          (on_line JSON_parse st line).2 = resolution JSON_parse w line)
    as [Hpending Heffects].
  { rewrite (on_line_matched st line msg x n w) by done.
    apply resolve_pending. }
  split_and!.
  - exact Hpending.
  - rewrite Hpending. apply Map_get_delete_eq.
  - intros m Hm. rewrite Hpending. by apply Map_get_delete_ne.
  - exact Heffects.
  - intros chunks Hbuf Hline Hchunks.
    rewrite (feed_one_line st line chunks Hbuf Hline Hchunks). simpl.
    split_and!; [done..| |done].
    intros m Hm. rewrite Hpending. by apply Map_get_delete_ne.
  - intros st' line' msg'. apply on_line_unmatched.
  - intros st' line'. apply on_line_malformed.
  - intros st' line' lines'. split; [done|]. apply on_lines_cons.
  - intros st' chunks. apply feed_stream.
Qed.

End TransportTheorems.

(** A response line that arrives in two chunks is processed once, when its
    line break arrives. *)
Example feed_split_line_example :
  feed sample_parse two_pending
       ["{" +:+ quoted "id" +:+ ":3," +:+ quoted "result";
        ":{" +:+ quoted "content" +:+ ":[]}}" +:+ Hook.nl +:+ "{"]
  = (Mcp.Client (Some 1%nat) "{" [(2%Z, Mcp.CallWaiter 7)] 4 true,
     [Mcp.Settle 8 Mcp.label]).
Proof. vm_compute. reflexivity. Qed.

Lemma on_data_correlates_by_id_witness :
  (Mcp.on_line sample_parse two_pending line_alpha).2
  = [Mcp.Settle 7 (Mcp.label +:+ "alpha")] /\
  feed sample_parse two_pending
       ["{" +:+ quoted "id" +:+ ":2," +:+ quoted "result" +:+ ":{" +:+
        quoted "content" +:+ ":[{" +:+ quoted "type" +:+ ":" +:+ quoted "text";
        "," +:+ quoted "text" +:+ ":" +:+ quoted "alpha" +:+ "}]}}" +:+ Hook.nl]
  = (with_pending [(3%Z, Mcp.CallWaiter 8)] two_pending,
     [Mcp.Settle 7 (Mcp.label +:+ "alpha")]) /\
  Mcp.on_line sample_parse two_pending "not json" = (two_pending, []).
Proof.
  pose proof (on_data_correlates_by_id sample_parse two_pending line_alpha
                msg_alpha (num_of_Z 2) 2 (Mcp.CallWaiter 7)
                eq_refl eq_refl eq_refl eq_refl eq_refl)
    as ((_ & _ & _ & Heffects) & Hfeed & _ & Hmalformed & _).
  split_and!.
  - rewrite Heffects. reflexivity.
  - match goal with
    | |- feed _ _ ?chunks = _ =>
        destruct (Hfeed chunks eq_refl eq_refl eq_refl)
          as (Heffs & Hpending & _ & Hbuffer);
        destruct (feed sample_parse two_pending chunks) as [st' effs] eqn:Hrun
    end.
    simpl in Heffs, Hpending, Hbuffer. subst effs.
    assert (st' = with_pending [(3%Z, Mcp.CallWaiter 8)] two_pending) as ->.
    { assert (Hst : st' = (feed sample_parse two_pending
         ["{" +:+ quoted "id" +:+ ":2," +:+ quoted "result" +:+ ":{" +:+
          quoted "content" +:+ ":[{" +:+ quoted "type" +:+ ":" +:+ quoted "text";
          "," +:+ quoted "text" +:+ ":" +:+ quoted "alpha" +:+ "}]}}" +:+ Hook.nl]).1)
        by (rewrite Hrun; reflexivity).
      rewrite Hst. vm_compute. reflexivity. }
    reflexivity.
  - apply Hmalformed. reflexivity.
Defined.

(** * The request id counter *)

Section CounterFacts.
Import Mcp.
Variable JSON_parse : string -> option value.

Lemma resolve_nextId (w : waiter) (line : string) (st : client) :
  nextId (resolve JSON_parse w line st).1 = nextId st.
Proof. by destruct w. Qed.

Lemma on_line_nextId (st : client) (line : string) :
  nextId (on_line JSON_parse st line).1 = nextId st /\
  call_ids (on_line JSON_parse st line).2 = [].
Proof.
  unfold on_line. destruct (negb _); [done|].
  unfold on_line_body. destruct (parse JSON_parse line) as [msg|]; [|done].
  simpl. destruct (prop msg "id") as [[id|]|]; try done. simpl.
  destruct (pending_get (pending st) id) as [[h|k]|]; done.
Qed.

Lemma call_ids_app (e1 e2 : list effect) :
  call_ids (e1 ++ e2) = call_ids e1 ++ call_ids e2.
Proof. apply omap_app. Qed.

Lemma on_lines_nextId (lines : list string) (st : client) :
  nextId (on_lines JSON_parse st lines).1 = nextId st /\
  call_ids (on_lines JSON_parse st lines).2 = [].
Proof.
  induction lines as [|line lines [IHn IHc]] using rev_ind; [done|].
  rewrite on_lines_snoc. simpl.
  destruct (on_line_nextId (on_lines JSON_parse st lines).1 line) as [Hn Hc].
  rewrite call_ids_app, Hn, Hc, IHn, IHc. done.
Qed.

Lemma on_data_nextId (st : client) (chunk : string) :
  nextId (on_data JSON_parse st chunk).1 = nextId st /\
  call_ids (on_data JSON_parse st chunk).2 = [].
Proof.
  pose proof (on_data_unfold JSON_parse st chunk) as Hdata. simpl in Hdata.
  rewrite Hdata. simpl. apply on_lines_nextId.
Qed.

Lemma reject_nextId (w : waiter) (st : client) :
  nextId (reject w st).1 = nextId st /\ call_ids (reject w st).2 = [].
Proof. by destruct w. Qed.

Lemma reject_fold_nextId (ws : list waiter) (st : client) (effs : list effect) :
  let r := foldl (fun acc w =>
                    let '(st', effs) := reject w acc.1 in (st', acc.2 ++ effs))
                 (st, effs) ws in
  nextId r.1 = nextId st /\ call_ids r.2 = call_ids effs.
Proof.
  revert st effs. induction ws as [|w ws IH]; intros st effs; simpl; [done|].
  destruct (reject_nextId w st) as [Hn Hc].
  destruct (reject w st) as [st' effs'] eqn:Hr. simpl in *.
  destruct (IH st' (effs ++ effs')) as [IHn IHc].
  rewrite IHn, IHc, call_ids_app, Hn, Hc. by rewrite app_nil_r.
Qed.

Lemma reject_all_nextId (st : client) :
  nextId (reject_all st).1 = nextId st /\ call_ids (reject_all st).2 = [].
Proof.
  unfold reject_all.
  pose proof (reject_fold_nextId (JsMap.values (pending st)) st []) as Hfold.
  simpl in Hfold. by destruct (foldl _ _ _).
Qed.

(** The counter moves only where [callTool] allocates an id, and then
    by one; the request written, if any, carries the id allocated. *)
Lemma step_nextId (st : client) (a : action) :
  nextId (step JSON_parse st a).1
  = (if allocates st a then nextId st + 1 else nextId st)%Z /\
  (call_ids (step JSON_parse st a).2 = [] \/
   allocates st a = true /\ call_ids (step JSON_parse st a).2 = [nextId st]).
Proof.
  destruct a as [h|k name args write_ok|k|chunk| | |]; simpl.
  - unfold allocates, ensureStarted.
    destruct (proc st); [by split; [|left]|].
    destruct (startPromise st); by split; [|left].
  - unfold allocates, callTool_issue.
    destruct (proc st) as [h|]; [|by split; [|left]].
    destruct write_ok; simpl; split; auto.
  - unfold allocates. destruct (proc st); by split; [|left].
  - destruct (on_data_nextId st chunk) as [-> ->]. by split; [|left].
  - unfold on_close.
    destruct (reject_all_nextId
                (Client None (buffer st) (pending st) (nextId st) false))
      as [-> ->]. by split; [|left].
  - by split; [|left].
  - unfold stop.
    destruct (reject_all_nextId
                (Client None (buffer st) (pending st) (nextId st) false))
      as [Hn Hc].
    destruct (reject_all _) as [st' effs]. simpl in *.
    rewrite call_ids_app, Hc, Hn.
    split; [done|left]. by destruct (proc st).
Qed.

Lemma run_nextId (trace : list action) :
  forall st : client,
    (nextId st <= nextId (run JSON_parse st trace).1)%Z /\
    StronglySorted Z.lt (call_ids (run JSON_parse st trace).2) /\
    Forall (fun id => nextId st <= id < nextId (run JSON_parse st trace).1)%Z
           (call_ids (run JSON_parse st trace).2).
Proof.
  induction trace as [|a trace IH]; intros st; simpl.
  { split_and!; [lia|constructor..]. }
  destruct (step_nextId st a) as [Hn Hids].
  destruct (step JSON_parse st a) as [st1 e1]. simpl in *.
  destruct (IH st1) as (Hle & Hsorted & Hrange).
  destruct (run JSON_parse st1 trace) as [st2 e2]. simpl in *.
  rewrite call_ids_app.
  assert (nextId st <= nextId st1)%Z as Hle1.
  { rewrite Hn. destruct (allocates st a); lia. }
  destruct Hids as [->|[Halloc ->]]; simpl.
  - split_and!; [lia|done|].
    eapply Forall_impl; [exact Hrange|]. simpl. lia.
  - rewrite Halloc in Hn. split_and!; [lia| |].
    + constructor; [done|].
      eapply Forall_impl; [exact Hrange|]. simpl. lia.
    + constructor; [lia|].
      eapply Forall_impl; [exact Hrange|]. simpl. lia.
Qed.

(** C10. [nextId] starts at 2. A callback changes it only when [callTool]
    allocates an id, and then adds exactly one; [stop()] and the [close]
    handler leave it as it is. Hence, over any sequence of callbacks from
    the initial client (any number of connection epochs), the ids of the
    [tools/call] requests written are strictly increasing, pairwise
    distinct, at least 2 (never the handshake id 1) and below the current
    [nextId]. *)
Theorem nextId_strictly_increasing (trace : list action) :
  let final := run JSON_parse initial trace in
  nextId initial = 2%Z /\
  (forall (st : client) (a : action),
      nextId (step JSON_parse st a).1
      = (if allocates st a then nextId st + 1 else nextId st)%Z) /\
  (forall st : client,
      nextId (stop st).1 = nextId st /\ nextId (on_close st).1 = nextId st) /\
  StronglySorted Z.lt (call_ids final.2) /\
  NoDup (call_ids final.2) /\
  Forall (fun id => 2 <= id < nextId final.1)%Z (call_ids final.2).
Proof.
  intros final.
  destruct (run_nextId trace initial) as (_ & Hsorted & Hrange).
  fold final in Hsorted, Hrange.
  split_and!; try done.
  - intros st a. apply step_nextId.
  - intros st. split.
    + apply (step_nextId st AStop).
    + apply (step_nextId st AClose).
  - clear Hrange. induction Hsorted as [|id ids _ IH Hlt]; constructor; [|done].
    intros Hin. rewrite Forall_forall in Hlt. specialize (Hlt id Hin). lia.
Qed.

End CounterFacts.

(** Two connection epochs, separated by [stop()]: the second call gets the
    next id, not the first one again. *)
Example nextId_across_epochs_example :
  let trace :=
    [Mcp.AStart 1; Mcp.AData (line_init +:+ Hook.nl);
     Mcp.AIssue 7 "query" [("query", VStr "withdraw")] true;
     Mcp.AStop;
     Mcp.AStart 2; Mcp.AData (line_init +:+ Hook.nl);
     Mcp.AIssue 8 "context" [("name", VStr "withdraw")] true] in
  Mcp.call_ids (Mcp.run sample_parse Mcp.initial trace).2 = [2%Z; 3%Z] /\
  Mcp.nextId (Mcp.run sample_parse Mcp.initial trace).1 = 4%Z.
Proof. vm_compute. done. Qed.

(** * The one-shot invoker *)

Section InvokerFacts.
Import Augment.

Lemma foldl_data (pre : list event) (st : invocation) :
  Forall (fun e => is_data e = true) pre ->
  done (foldl on_event st pre) = done st /\
  timer (foldl on_event st pre) = timer st /\
  resolved (foldl on_event st pre) = resolved st /\
  sigterms (foldl on_event st pre) = sigterms st.
Proof.
  intros Hpre. revert st.
  induction Hpre as [|e pre He _ IH]; intros st; simpl; [done|].
  destruct e as [chunk| | |]; try done.
  exact (IH (on_event st (EData chunk))).
Qed.

Lemma foldl_settled (rest : list event) (st : invocation) :
  done st = true -> timer st = false ->
  resolved (foldl on_event st rest) = resolved st /\
  sigterms (foldl on_event st rest) = sigterms st.
Proof.
  revert st. induction rest as [|e rest IH]; intros st Hdone Htimer; simpl; [done|].
  destruct e as [chunk|code| |]; simpl.
  - exact (IH (on_event st (EData chunk)) Hdone Htimer).
  - rewrite Hdone. by apply IH.
  - rewrite Hdone. by apply IH.
  - rewrite Htimer. by apply IH.
Qed.

Lemma on_event_output (st : invocation) (e : event) :
  output (on_event st e) = output st +:+ captured [e].
Proof.
  destruct e as [chunk|code| |]; simpl; rewrite ?append_nil_r; try done.
  - by destruct (done st).
  - by destruct (done st).
  - by destruct (timer st), (done st).
Qed.

Lemma captured_cons (e : event) (events : list event) :
  captured (e :: events) = captured [e] +:+ captured events.
Proof.
  destruct e as [chunk|code| |]; simpl; try done.
  by rewrite append_nil_r.
Qed.

(** [output] is what the child has written so far, whatever else has
    happened. *)
Lemma foldl_output (events : list event) (st : invocation) :
  output (foldl on_event st events) = output st +:+ captured events.
Proof.
  revert st. induction events as [|e events IH]; intros st.
  { simpl. by rewrite append_nil_r. }
  cbn [foldl]. rewrite IH, on_event_output, (captured_cons e events).
  by rewrite append_assoc.
Qed.

Lemma run_output (events : list event) : output (run events) = captured events.
Proof. unfold run. by rewrite foldl_output. Qed.

Lemma settlement_length (out : string) (e : event) :
  (String.length (settlement out e) <= MAX_OUTPUT_CHARS)%nat.
Proof.
  destruct e as [chunk|[[| |]|]| |]; simpl; try lia.
  apply (slice0_length MAX_OUTPUT_CHARS).
Qed.

(** The callbacks after a first event [e] that is not a [data] event. *)
Lemma run_settles (pre rest : list event) (e : event) :
  Forall (fun e => is_data e = true) pre ->
  is_data e = false ->
  resolved (run (pre ++ e :: rest)) = [settlement (captured pre) e] /\
  sigterms (run (pre ++ e :: rest))
  = (match e with ETimeout => 1 | _ => 0 end)%nat /\
  resolved (run pre) = [] /\ timer (run pre) = true.
Proof.
  intros Hpre He.
  destruct (foldl_data pre spawned Hpre) as (Hdone & Htimer & Hres & Hsig).
  fold (run pre) in Hdone, Htimer, Hres, Hsig. simpl in *.
  rewrite <- (run_output pre).
  split_and!; [| |done..].
  - unfold run. rewrite foldl_app. simpl. fold (run pre).
    destruct e as [chunk|code| |]; try done; simpl;
      rewrite ?Hdone, ?Htimer; simpl;
      (match goal with
       | |- context [foldl on_event ?s rest] =>
           destruct (foldl_settled rest s eq_refl eq_refl) as [-> _]
       end); simpl; by rewrite Hres.
  - unfold run. rewrite foldl_app. simpl. fold (run pre).
    destruct e as [chunk|code| |]; try done; simpl;
      rewrite ?Hdone, ?Htimer; simpl;
      (match goal with
       | |- context [foldl on_event ?s rest] =>
           destruct (foldl_settled rest s eq_refl eq_refl) as [_ ->]
       end); simpl; by rewrite ?Hsig.
Qed.

(** C6. Where [runAugment] departs from the claim. For the flag
    [--gitnexus-cmd] given as the empty string (or as blanks), and for a
    saved configuration whose [cmd] is the empty string, [onSession] sets
    [gitnexusCmd] to the list of the empty string. [spawn] throws for this
    command, and the promise of [runAugment] is rejected, for every
    pattern and working directory and whatever the child would have done:
    it is not resolved to the empty string. More generally the promise is
    rejected whenever [spawn] throws. *)
Theorem runAugment_rejects_when_spawn_throws
    (sys_throws : string -> list string -> string -> bool)
    (pattern cwd : string) (events : list event) :
  Hook.session_command (Some "") None = [""] /\
  Hook.session_command (Some "  ") (Some "gitnexus") = [""] /\
  Hook.session_command None (Some "") = [""] /\
  spawn_throws sys_throws (head [""]) (tail [""] ++ ["augment"; pattern]) cwd
  = true /\
  runAugment sys_throws (Hook.session_command (Some "") None) pattern cwd events
  = Rejected /\
  (forall gitnexusCmd : list string,
      spawn_throws sys_throws (head gitnexusCmd)
                   (tail gitnexusCmd ++ ["augment"; pattern]) cwd = true ->
      runAugment sys_throws gitnexusCmd pattern cwd events = Rejected).
Proof.
  split_and!; try reflexivity.
  intros gitnexusCmd Hthrows. unfold runAugment. by rewrite Hthrows.
Qed.

(** X13. Once [spawn] has returned the child, let [e] be the first event
    of the invocation that is not a [data] event. Then [resolve_] is called
    exactly once, whatever events follow, and the promise is fulfilled:
    with the empty string when [e] is the expiry of the timer (and then
    one [SIGTERM] is sent to the child), when [e] is the [error] event,
    and when [e] is [close] with a code other than 0; with the
    concatenation of the chunks received before [e], trimmed and cut to
    [MAX_OUTPUT_CHARS] characters, when [e] is [close] with code 0. The
    result is never longer than [MAX_OUTPUT_CHARS]. As long as only
    [data] events have arrived the promise is unsettled and the timer is
    still set, so that its expiry is such an event [e]. *)
Theorem runAugment_resolves_once
    (sys_throws : string -> list string -> string -> bool)
    (gitnexusCmd : list string) (pattern cwd : string)
    (pre rest : list event) (e : event) :
  spawn_throws sys_throws (head gitnexusCmd)
               (tail gitnexusCmd ++ ["augment"; pattern]) cwd = false ->
  Forall (fun e => is_data e = true) pre ->
  is_data e = false ->
  let final := run (pre ++ e :: rest) in
  runAugment sys_throws gitnexusCmd pattern cwd (pre ++ e :: rest)
  = Fulfilled (settlement (captured pre) e) /\
  runAugment sys_throws gitnexusCmd pattern cwd pre = Unsettled /\
  resolved final = [settlement (captured pre) e] /\
  (String.length (settlement (captured pre) e) <= MAX_OUTPUT_CHARS)%nat /\
  sigterms final = (match e with ETimeout => 1 | _ => 0 end)%nat /\
  (e = ETimeout -> settlement (captured pre) e = "") /\
  (e = EError -> settlement (captured pre) e = "") /\
  (forall code, e = EClose code -> code <> Some 0%Z ->
     settlement (captured pre) e = "") /\
  (e = EClose (Some 0%Z) ->
   settlement (captured pre) e
   = Js.slice0 MAX_OUTPUT_CHARS (Js.trim (captured pre))) /\
  timer (run pre) = true.
Proof.
  intros Hspawn Hpre He final.
  destruct (run_settles pre rest e Hpre He) as (Hfinal & Hkill & Hnone & Htimer).
  subst final. unfold runAugment, result. rewrite Hspawn, Hfinal, Hnone. simpl.
  split_and!; try done.
  - apply settlement_length.
  - by intros ->.
  - by intros ->.
  - intros code -> Hcode. by destruct code as [[| |]|].
  - by intros ->.
Qed.

End InvokerFacts.

Lemma runAugment_resolves_once_witness :
  Augment.runAugment (fun _ _ _ => false) ["npx"; "gitnexus@latest"]
    "login" "/home/u/proj"
    [Augment.EData "  Called by: "; Augment.EData "login  ";
     Augment.EClose (Some 0%Z); Augment.ETimeout]
  = Augment.Fulfilled "Called by: login" /\
  Augment.runAugment (fun _ _ _ => false) ["gitnexus"] "login" "/home/u/proj"
    [Augment.EData "partial"; Augment.ETimeout; Augment.EClose None]
  = Augment.Fulfilled "" /\
  Augment.sigterms (Augment.run [Augment.EData "partial"; Augment.ETimeout;
                                 Augment.EClose None])
  = 1%nat.
Proof.
  pose proof (runAugment_resolves_once
                (fun _ _ _ => false) ["npx"; "gitnexus@latest"]
                "login" "/home/u/proj"
                [Augment.EData "  Called by: "; Augment.EData "login  "]
                [Augment.ETimeout] (Augment.EClose (Some 0%Z))
                eq_refl ltac:(repeat constructor) eq_refl)
    as (Hclose & _).
  pose proof (runAugment_resolves_once
                (fun _ _ _ => false) ["gitnexus"] "login" "/home/u/proj"
                [Augment.EData "partial"] [Augment.EClose None] Augment.ETimeout
                eq_refl ltac:(repeat constructor) eq_refl)
    as (Htimeout & _ & _ & _ & Hkill & _).
  split_and!.
  - exact Hclose.
  - exact Htimeout.
  - exact Hkill.
Defined.

(** * More facts about the string primitives *)
Section MoreStringFacts.

Lemma rev_app_append (s t : string) :
  String.rev_app s t = String.rev s +:+ t.
Proof.
  unfold String.rev. revert t.
  induction s as [|c s IH]; intros t; simpl; [done|].
  rewrite (IH (String c t)), (IH (String c "")).
  by rewrite append_assoc.
Qed.

Lemma rev_cons (c : ascii) (s : string) :
  String.rev (String c s) = String.rev s +:+ String c "".
Proof. unfold String.rev at 1. simpl. apply rev_app_append. Qed.

Lemma rev_append (s t : string) :
  String.rev (s +:+ t) = String.rev t +:+ String.rev s.
Proof.
  induction s as [|c s IH].
  - by rewrite append_nil_r.
  - rewrite append_cons, !rev_cons, IH. by rewrite append_assoc.
Qed.

Lemma forallb_append (p : ascii -> bool) (s t : string) :
  Js.forallb p (s +:+ t) = Js.forallb p s && Js.forallb p t.
Proof.
  induction s as [|c s IH]; [done|].
  rewrite append_cons. simpl. rewrite IH. by rewrite andb_assoc.
Qed.

Lemma forallb_rev (p : ascii -> bool) (s : string) :
  Js.forallb p (String.rev s) = Js.forallb p s.
Proof.
  induction s as [|c s IH]; [done|].
  rewrite rev_cons, forallb_append, IH. simpl.
  rewrite andb_true_r. apply andb_comm.
Qed.

Lemma take_drop_while (p : ascii -> bool) (s : string) :
  Js.take_while p s +:+ Js.drop_while p s = s.
Proof.
  induction s as [|c s IH]; simpl; [done|].
  destruct (p c); [|done]. rewrite append_cons. by rewrite IH.
Qed.

Lemma forallb_take_while (p : ascii -> bool) (s : string) :
  Js.forallb p (Js.take_while p s) = true.
Proof.
  induction s as [|c s IH]; simpl; [done|].
  destruct (p c) eqn:Hc; simpl; [|done]. by rewrite Hc.
Qed.

Lemma drop_while_head (p : ascii -> bool) (s : string) (c : ascii) (t : string) :
  Js.drop_while p s = String c t -> p c = false.
Proof.
  induction s as [|d s IH]; simpl; [done|].
  destruct (p d) eqn:Hd; [done|]. by intros [= <- _].
Qed.

Lemma forallb_remove (cls : ascii -> bool) (s : string) :
  Js.forallb (fun c => negb (cls c)) (Js.remove cls s) = true.
Proof.
  induction s as [|c s IH]; simpl; [done|].
  destruct (cls c) eqn:Hc; [done|]. simpl. by rewrite Hc.
Qed.

Lemma remove_length (cls : ascii -> bool) (s : string) :
  (String.length (Js.remove cls s) <= String.length s)%nat.
Proof.
  induction s as [|c s IH]; simpl; [done|].
  destruct (cls c); simpl; lia.
Qed.

(** [split_last_dot] cuts [s] at its last dot. *)
Lemma split_last_dot_spec (s pre suf : string) :
  Js.split_last_dot s = Some (pre, suf) ->
  s = pre +:+ String "." suf /\ Js.forallb Js.not_dot suf = true.
Proof.
  unfold Js.split_last_dot.
  pose proof (take_drop_while Js.not_dot (String.rev s)) as Hcut.
  destruct (Js.drop_while Js.not_dot (String.rev s)) as [|c pre_rev] eqn:Hdrop;
    [done|].
  intros [= <- <-].
  apply drop_while_head in Hdrop.
  assert (c = "."%char) as ->.
  { unfold Js.not_dot, Js.is_dot in Hdrop. apply negb_false_iff in Hdrop.
    by apply Ascii.eqb_eq in Hdrop. }
  split.
  - apply (f_equal String.rev) in Hcut.
    rewrite rev_involutive, rev_append, rev_cons, append_assoc in Hcut.
    symmetry. exact Hcut.
  - rewrite forallb_rev. apply forallb_take_while.
Qed.

Lemma split_last_dot_none (s : string) :
  Js.split_last_dot s = None -> Js.forallb Js.not_dot s = true.
Proof.
  unfold Js.split_last_dot.
  pose proof (take_drop_while Js.not_dot (String.rev s)) as Hcut.
  destruct (Js.drop_while Js.not_dot (String.rev s)) as [|c pre_rev] eqn:Hdrop;
    [|done].
  intros _. rewrite append_nil_r in Hcut.
  rewrite <- (forallb_rev _ s), <- Hcut. apply forallb_take_while.
Qed.

(** [basename] holds no separator. *)
Lemma basename_no_slash (p : string) :
  Js.forallb Path.not_slash (Path.basename p) = true.
Proof.
  unfold Path.basename. rewrite forallb_rev. apply forallb_take_while.
Qed.

(** [strip_ext] removes a suffix: a dot and word characters, or nothing. *)
Lemma strip_ext_spec (s : string) :
  Js.strip_ext s = s \/
  exists suf, s = Js.strip_ext s +:+ String "." suf /\
              Js.truthy suf = true /\ Js.forallb Js.is_word suf = true.
Proof.
  unfold Js.strip_ext.
  destruct (Js.split_last_dot s) as [[pre suf]|] eqn:Hsplit; [|by left].
  destruct (Js.truthy suf && Js.forallb Js.is_word suf) eqn:Hsuf; [|by left].
  apply andb_true_iff in Hsuf as [? ?].
  apply split_last_dot_spec in Hsplit as [-> _]. right. by exists suf.
Qed.

Lemma stem_no_slash (p : string) :
  Js.forallb Path.not_slash (stem p) = true.
Proof.
  unfold stem. pose proof (basename_no_slash p) as Hbase.
  destruct (strip_ext_spec (Path.basename p)) as [->|(suf & Heq & _)]; [done|].
  rewrite Heq, forallb_append in Hbase. by apply andb_true_iff in Hbase as [? _].
Qed.

End MoreStringFacts.

(** * More of the pattern extractor *)
#[local] Arguments at_least_3 : simpl never.

Section MoreExtractFacts.

(** Every recognised extension is a dot followed by word characters. *)
Lemma code_ext_shape (ext : string) :
  is_code_ext ext = true ->
  exists suf, ext = String "." suf /\ Js.truthy suf = true /\
              Js.forallb Js.is_word suf = true.
Proof.
  unfold is_code_ext, CODE_EXTENSIONS. intros Hext%bool_decide_eq_true.
  apply elem_of_list_to_set in Hext.
  repeat (apply elem_of_cons in Hext as [->|Hext]; [by eexists|]).
  by apply elem_of_nil in Hext.
Qed.

(** For a path with a recognised extension, the candidate is the basename
    without that extension. *)
Lemma stem_extname (p : string) :
  is_code_ext (Path.extname p) = true ->
  Path.basename p = stem p +:+ Path.extname p.
Proof.
  intros (suf & Hext & Hsuf & Hword)%code_ext_shape.
  unfold stem, Js.strip_ext. unfold Path.extname in *.
  destruct (Js.split_last_dot (Path.basename p)) as [[pre suf']|] eqn:Hsplit;
    [|done].
  destruct (negb (Js.truthy pre)); [done|].
  destruct (String.eqb (Path.basename p) ".."); [done|].
  change ("." +:+ suf') with (String "." suf') in *.
  injection Hext as ->. rewrite Hsuf, Hword. simpl.
  by apply split_last_dot_spec in Hsplit as [? _].
Qed.


Lemma at_least_3_some (pattern : option string) (p : string) :
  at_least_3 pattern = Some p <-> pattern = Some p /\ (3 <= String.length p)%nat.
Proof.
  unfold at_least_3. destruct pattern as [q|]; [|by split; [|intros []]].
  destruct (String.length q <? 3)%nat eqn:Hlen.
  - rewrite orb_true_r. apply Nat.ltb_lt in Hlen.
    split; [done|]. intros [[= ->] ?]. lia.
  - apply Nat.ltb_ge in Hlen. rewrite truthy_length by lia. simpl.
    split; [by intros [= ->]|by intros [? _]].
Qed.

Lemma extractPattern_read (input : list (string * value)) :
  extractPattern "read" input
  = at_least_3
      (match as_string (get "path" input) with
       | Some raw =>
           if Js.truthy raw && is_code_ext (Path.extname raw)
           then Some (stem raw) else None
       | None => None
       end).
Proof. reflexivity. Qed.

Lemma extractPattern_bash (input : list (string * value)) :
  extractPattern "bash" input
  = at_least_3
      (scan_tokens false false
         (Js.split_ws (default "" (as_string (get "command" input))))).
Proof. reflexivity. Qed.

Lemma file_cmd_not_grep (tok : string) :
  is_file_cmd tok = true -> is_grep_cmd tok = false.
Proof.
  unfold is_file_cmd.
  rewrite !orb_true_iff, !String.eqb_eq. by intros [[[[->| ->]| ->]| ->]| ->].
Qed.

Lemma flag_not_file (tok : string) :
  Js.startsWith tok "-" = true -> is_file_cmd tok = false.
Proof. intros [rest ->]%startsWith_spec. reflexivity. Qed.

Lemma scan_tokens_file_flags (flags rest : list string) :
  Forall (fun tok => Js.startsWith tok "-" = true) flags ->
  scan_tokens false true (flags ++ rest) = scan_tokens false true rest.
Proof.
  induction 1 as [|tok flags Hflag _ IH]; simpl; [done|].
  by rewrite (flag_not_grep _ Hflag), (flag_not_file _ Hflag), Hflag.
Qed.

Lemma scan_tokens_cat (pre flags rest : list string) (c tok : string) :
  Forall inert pre ->
  is_file_cmd c = true ->
  Forall (fun tok => Js.startsWith tok "-" = true) flags ->
  is_grep_cmd tok = false -> is_file_cmd tok = false ->
  Js.startsWith tok "-" = false ->
  scan_tokens false false (pre ++ c :: flags ++ tok :: rest)
  = if is_code_ext (Path.extname (strip_quotes tok))
    then Some (stem (strip_quotes tok)) else None.
Proof.
  intros Hpre Hc Hflags Hgrep Hfile Hdash.
  rewrite scan_tokens_inert by done. simpl.
  rewrite (file_cmd_not_grep c Hc), Hc.
  rewrite scan_tokens_file_flags by done. simpl.
  by rewrite Hgrep, Hfile, Hdash.
Qed.

End MoreExtractFacts.

(** X1. Whatever the tool and its input, a pattern [extractPattern]
    returns has at least 3 characters, and it returns one only for the
    tools [grep], [find], [bash] and [read]: for every other tool name the
    result is [null]. *)
Theorem extractPattern_candidate_length
    (toolName : string) (input : list (string * value)) (p : string) :
  extractPattern toolName input = Some p ->
  (3 <= String.length p)%nat /\
  (toolName = "grep" \/ toolName = "find" \/ toolName = "bash" \/
   toolName = "read").
Proof.
  intros Hp. split.
  - assert (exists pattern, extractPattern toolName input = at_least_3 pattern)
      as [pattern Heq] by (eexists; reflexivity).
    rewrite Heq in Hp. by apply at_least_3_some in Hp as [_ Hlen].
  - unfold extractPattern in Hp.
    destruct (String.eqb_spec toolName "grep"); [auto|].
    destruct (String.eqb_spec toolName "find"); [auto|].
    destruct (String.eqb_spec toolName "bash"); [auto|].
    destruct (String.eqb_spec toolName "read"); [auto|].
    discriminate.
Qed.

Lemma extractPattern_candidate_length_witness :
  (3 <= String.length "index")%nat /\
  ("read" = "grep" \/ "read" = "find" \/ "read" = "bash" \/ "read" = "read").
Proof.
  apply (extractPattern_candidate_length "read" [("path", VStr "src/index.ts")]).
  reflexivity.
Defined.

(** X2. For the [grep] tool, a pattern [extractPattern] returns comes
    from a string field [pattern] of the input, is that string with its
    regular-expression metacharacters removed, holds no such character
    any more, and is not longer than the string. *)
Theorem extractPattern_grep_no_metachar
    (input : list (string * value)) (p : string) :
  extractPattern "grep" input = Some p ->
  exists raw,
    get "pattern" input = Some (VStr raw) /\
    p = strip_meta raw /\
    Js.forallb (fun c => negb (Js.is_regex_meta c)) p = true /\
    (String.length p <= String.length raw)%nat.
Proof.
  intros Hp.
  assert (extractPattern "grep" input
          = at_least_3 (match as_string (get "pattern" input) with
                        | Some raw =>
                            if Js.truthy raw then Some (strip_meta raw) else None
                        | None => None
                        end)) as Heq by reflexivity.
  rewrite Heq in Hp. apply at_least_3_some in Hp as [Hp _].
  destruct (get "pattern" input) as [[| | |raw| |]|]; try done.
  simpl in Hp. destruct (Js.truthy raw); [|done]. injection Hp as <-.
  exists raw. split_and!; [done..| |].
  - apply forallb_remove.
  - apply remove_length.
Qed.

Lemma extractPattern_grep_no_metachar_witness :
  exists raw,
    get "pattern" [("pattern", VStr "withdraw\(")] = Some (VStr raw) /\
    "withdraw" = strip_meta raw /\
    Js.forallb (fun c => negb (Js.is_regex_meta c)) "withdraw" = true /\
    (String.length "withdraw" <= String.length raw)%nat.
Proof.
  apply (extractPattern_grep_no_metachar [("pattern", VStr "withdraw\(")]).
  reflexivity.
Defined.

(** X3. For the [read] tool with a string [path]: when the extension of
    the path is not a code extension the result is [null]; a pattern that
    is returned is the basename of the path without its extension (the
    basename is the pattern followed by the extension) and holds no slash;
    and when the extension is a code extension and that basename has at
    least 3 characters, it is returned. *)
Theorem extractPattern_read_code_file
    (input : list (string * value)) (raw : string) :
  get "path" input = Some (VStr raw) ->
  (is_code_ext (Path.extname raw) = false -> extractPattern "read" input = None) /\
  (forall p, extractPattern "read" input = Some p ->
     is_code_ext (Path.extname raw) = true /\
     Path.basename raw = p +:+ Path.extname raw /\
     Js.forallb Path.not_slash p = true) /\
  (is_code_ext (Path.extname raw) = true ->
   (3 <= String.length (stem raw))%nat ->
   extractPattern "read" input = Some (stem raw)).
Proof.
  intros Hpath. rewrite extractPattern_read, Hpath. simpl. split_and!.
  - intros ->. by rewrite andb_false_r.
  - intros p [Hp _]%at_least_3_some.
    destruct (Js.truthy raw); [|done]. simpl in Hp.
    destruct (is_code_ext (Path.extname raw)) eqn:Hext; [|done].
    injection Hp as <-. split_and!; [done| |].
    + by apply stem_extname.
    + apply stem_no_slash.
  - intros Hext Hlen. rewrite Hext.
    assert (Js.truthy raw = true) as ->.
    { destruct raw; [|done]. by vm_compute in Hext. }
    simpl. apply at_least_3_some. by split.
Qed.

Lemma extractPattern_read_code_file_witness :
  extractPattern "read" [("path", VStr "src/lib/Vault.sol")] = Some "Vault" /\
  extractPattern "read" [("path", VStr "docs/notes.txt")] = None.
Proof.
  pose proof (extractPattern_read_code_file
                [("path", VStr "src/lib/Vault.sol")] "src/lib/Vault.sol" eq_refl)
    as (_ & _ & Hcode).
  pose proof (extractPattern_read_code_file
                [("path", VStr "docs/notes.txt")] "docs/notes.txt" eq_refl)
    as (Hother & _).
  split.
  - apply Hcode; [reflexivity|simpl; lia].
  - apply Hother. reflexivity.
Defined.

(** X4. For a [bash] command whose first rule to fire is that of a file
    command ([cat], [head], [tail], [less], [wc]): the tokens before the
    command arm no rule, the tokens after it that start with [-] are
    skipped, and the next token, with its quotes removed, is taken as the
    file. The result is the extension-stripped basename of that file when
    its extension is a code extension and the basename has at least 3
    characters, and [null] otherwise; what follows the file on the
    command line is not looked at. *)
Theorem extractPattern_bash_cat
    (input : list (string * value)) (cmd : string)
    (pre flags rest : list string) (c tok : string) :
  get "command" input = Some (VStr cmd) ->
  Js.split_ws cmd = pre ++ c :: flags ++ tok :: rest ->
  Forall inert pre ->
  is_file_cmd c = true ->
  Forall (fun tok => Js.startsWith tok "-" = true) flags ->
  is_grep_cmd tok = false ->
  is_file_cmd tok = false ->
  Js.startsWith tok "-" = false ->
  let file := strip_quotes tok in
  extractPattern "bash" input
  = if is_code_ext (Path.extname file) && (3 <=? String.length (stem file))%nat
    then Some (stem file) else None.
Proof.
  intros Hcmd Htokens Hpre Hc Hflags Hgrep Hfile Hdash file.
  rewrite extractPattern_bash, Hcmd.
  change (default "" (as_string (Some (VStr cmd)))) with cmd.
  rewrite Htokens, scan_tokens_cat by done. fold file.
  destruct (is_code_ext (Path.extname file)); [|done]. cbn [andb].
  destruct (3 <=? String.length (stem file))%nat eqn:Hlen.
  - apply Nat.leb_le in Hlen. apply at_least_3_some. by split.
  - apply Nat.leb_gt in Hlen.
    destruct (at_least_3 (Some (stem file))) as [p|] eqn:Hp; [|done].
    apply at_least_3_some in Hp as [[= <-] ?]. lia.
Qed.

Lemma extractPattern_bash_cat_witness :
  extractPattern "bash" [("command", VStr "cd pkg && head -20 'path/to/File.go'")]
  = Some "File" /\
  extractPattern "bash" [("command", VStr "cat README.md")] = None.
Proof.
  split.
  - apply (extractPattern_bash_cat
             [("command", VStr "cd pkg && head -20 'path/to/File.go'")]
             "cd pkg && head -20 'path/to/File.go'"
             ["cd"; "pkg"; "&&"] ["-20"] [] "head" "'path/to/File.go'");
      try reflexivity; repeat constructor.
  - apply (extractPattern_bash_cat
             [("command", VStr "cat README.md")] "cat README.md"
             [] [] [] "cat" "README.md");
      try reflexivity; repeat constructor.
Defined.

Section FindAndContentFacts.

Lemma forallb_remove_keeps (q cls : ascii -> bool) (s : string) :
  Js.forallb q s = true -> Js.forallb q (Js.remove cls s) = true.
Proof.
  induction s as [|c s IH]; simpl; [done|].
  intros [Hc Hs]%andb_true_iff.
  destruct (cls c); simpl; [by apply IH|]. rewrite Hc. by apply IH.
Qed.

Lemma or_null_some (s p : string) : or_null s = Some p -> p = s.
Proof. unfold or_null. destruct (Js.truthy s); by intros [= <-]. Qed.

Lemma extractPattern_find (input : list (string * value)) :
  extractPattern "find" input
  = at_least_3
      (match
         match as_string (get "pattern" input) with
         | Some s => Some s
         | None =>
             match as_string (get "glob" input) with
             | Some s => Some s
             | None => as_string (get "path" input)
             end
         end
       with
       | Some raw =>
           if Js.truthy raw then or_null (strip_glob (stem raw)) else None
       | None => None
       end).
Proof. reflexivity. Qed.

Lemma scan_lines_cons (limit : nat) (seen : gset string)
    (results : list string) (line : string) (lines : list string) :
  scan_lines limit seen results (line :: lines)
  = match match_grep_line line with
    | None => scan_lines limit seen results lines
    | Some m1 =>
        let base := stem m1 in
        let fresh :=
          (3 <=? String.length base)%nat && negb (bool_decide (base ∈ seen)) in
        let seen' := if fresh then {[base]} ∪ seen else seen in
        let results' := if fresh then results ++ [base] else results in
        if (limit <=? length results')%nat then results'
        else scan_lines limit seen' results' lines
    end.
Proof. reflexivity. Qed.

Lemma scan_lines_spec (limit : nat) (lines : list string) :
  forall (seen : gset string) (results : list string),
    (forall x, x ∈ results -> x ∈ seen) ->
    NoDup results ->
    (length results < max limit 1)%nat ->
    let r := scan_lines limit seen results lines in
    NoDup r /\
    (length r <= max limit 1)%nat /\
    (forall x, x ∈ r ->
       x ∈ results \/
       exists line m1,
         line ∈ lines /\ match_grep_line line = Some m1 /\
         x = stem m1 /\ (3 <= String.length x)%nat).
Proof.
  induction lines as [|line lines IH]; intros seen results Hseen Hnd Hlen.
  { simpl. split_and!; [done|lia|auto]. }
  cbv zeta. rewrite scan_lines_cons.
  destruct (match_grep_line line) as [m1|] eqn:Hmatch.
  2:{ destruct (IH seen results Hseen Hnd Hlen) as (? & ? & Hin).
      split_and!; [done..|]. intros x Hx.
      destruct (Hin x Hx) as [?|(l & m & ? & ? & ? & ?)]; [by left|right].
      exists l, m. split_and!; [by apply list_elem_of_further|done..]. }
  cbv zeta. set (base := stem m1).
  destruct (3 <=? String.length base)%nat eqn:Hbase; cbn [andb negb].
  2:{ destruct (limit <=? length results)%nat eqn:Hlimit.
      - split_and!; [done|lia|auto].
      - destruct (IH seen results Hseen Hnd Hlen) as (? & ? & Hin).
        split_and!; [done..|]. intros x Hx.
        destruct (Hin x Hx) as [?|(l & m & ? & ? & ? & ?)]; [by left|right].
        exists l, m. split_and!; [by apply list_elem_of_further|done..]. }
  apply Nat.leb_le in Hbase.
  case_bool_decide as Hin_seen; cbn [andb negb].
  { destruct (limit <=? length results)%nat eqn:Hlimit.
    - split_and!; [done|lia|auto].
    - destruct (IH seen results Hseen Hnd Hlen) as (? & ? & Hin).
      split_and!; [done..|]. intros x Hx.
      destruct (Hin x Hx) as [?|(l & m & ? & ? & ? & ?)]; [by left|right].
      exists l, m. split_and!; [by apply list_elem_of_further|done..]. }
  assert (NoDup (results ++ [base])) as Hnd'.
  { apply NoDup_app. split_and!; [done| |apply NoDup_singleton].
    intros x Hx ->%list_elem_of_singleton. by apply Hin_seen, Hseen. }
  assert (forall x, x ∈ results ++ [base] ->
            x ∈ results \/ x = base) as Hsplit.
  { intros x [?|?%list_elem_of_singleton]%elem_of_app; auto. }
  destruct (limit <=? length (results ++ [base]))%nat eqn:Hlimit.
  - split_and!; [done|rewrite length_app; simpl; lia|].
    intros x [?| ->]%Hsplit; [by left|right].
    exists line, m1. split_and!; [apply list_elem_of_here|done..].
  - apply Nat.leb_gt in Hlimit.
    destruct (IH ({[base]} ∪ seen) (results ++ [base])) as (? & ? & Hin);
      [|done|lia|].
    { intros x [?| ->]%Hsplit.
      - by apply elem_of_union_r, Hseen.
      - by apply elem_of_union_l, elem_of_singleton. }
    split_and!; [done..|]. intros x Hx.
    destruct (Hin x Hx) as [[?| ->]%Hsplit|(l & m & ? & ? & ? & ?)].
    + by left.
    + right. exists line, m1. split_and!; [apply list_elem_of_here|done..].
    + right. exists l, m. split_and!; [by apply list_elem_of_further|done..].
Qed.

End FindAndContentFacts.

(** X5. For the [find] tool: a pattern that is returned holds no glob
    character and no slash; when the input has a string field [pattern]
    that field alone decides the result (the fields [glob] and [path] are
    not consulted, not even when [pattern] yields nothing); and an empty
    [pattern] gives [null]. *)
Theorem extractPattern_find_candidate (input : list (string * value)) :
  (forall p, extractPattern "find" input = Some p ->
     Js.forallb (fun c => negb (Js.is_glob c)) p = true /\
     Js.forallb Path.not_slash p = true) /\
  (forall raw, get "pattern" input = Some (VStr raw) ->
     extractPattern "find" input
     = extractPattern "find" [("pattern", VStr raw)]) /\
  (get "pattern" input = Some (VStr "") -> extractPattern "find" input = None).
Proof.
  split_and!.
  - intros p Hp. rewrite extractPattern_find in Hp.
    apply at_least_3_some in Hp as [Hp _].
    destruct (match as_string (get "pattern" input) with
              | Some s => Some s
              | None => _
              end) as [raw|]; [|done].
    destruct (Js.truthy raw); [|done].
    apply or_null_some in Hp as ->. split.
    + apply forallb_remove.
    + apply forallb_remove_keeps, stem_no_slash.
  - intros raw Hraw. rewrite !extractPattern_find, Hraw. reflexivity.
  - intros Hraw. rewrite extractPattern_find, Hraw. reflexivity.
Qed.

(** X6. [extractFilePatternsFromContent] returns pairwise distinct
    names, at most [limit] of them (one when [limit] is 0, since the limit
    is tested after a line has been handled); each has at least 3
    characters, holds no slash, and is the extension-stripped basename of
    the file named at the start of a line of the text of the form
    [file.ext:digits:]. *)
Theorem extractFilePatternsFromContent_bounds
    (content : list block) (limit : nat) :
  let r := extractFilePatternsFromContent content limit in
  NoDup r /\
  (length r <= max limit 1)%nat /\
  (forall x, x ∈ r ->
     (3 <= String.length x)%nat /\
     Js.forallb Path.not_slash x = true /\
     exists line m1,
       line ∈ Js.split "010" (content_text content) /\
       match_grep_line line = Some m1 /\ x = stem m1).
Proof.
  unfold extractFilePatternsFromContent.
  destruct (scan_lines_spec limit (Js.split "010" (content_text content)) ∅ [])
    as (Hnd & Hlen & Hin).
  - by intros x ?%elem_of_nil.
  - constructor.
  - simpl. lia.
  - split_and!; [done..|]. intros x Hx.
    destruct (Hin x Hx) as [?%elem_of_nil|(l & m & ? & ? & -> & ?)]; [done|].
    split_and!; [done|apply stem_no_slash|by exists l, m].
Qed.

(** * The index marker *)
Section IndexFacts.
Import Hook.
Variable existsSync : string -> bool.
Variable process_cwd : string.

Lemma walk_up_S (n : nat) (dir : string) :
  walk_up existsSync process_cwd (S n) dir =
  if existsSync (Path.resolve process_cwd dir ".gitnexus") then true
  else if String.eqb (Path.resolve process_cwd dir "..") dir then false
       else walk_up existsSync process_cwd n (Path.resolve process_cwd dir "..").
Proof. reflexivity. Qed.

Lemma walk_up_sound (n : nat) :
  forall dir,
    walk_up existsSync process_cwd n dir = true ->
    exists k, (k < n)%nat /\
      existsSync (Path.resolve process_cwd (ancestor process_cwd k dir) ".gitnexus")
      = true.
Proof.
  induction n as [|n IH]; intros dir; [done|]. rewrite walk_up_S.
  destruct (existsSync (Path.resolve process_cwd dir ".gitnexus")) eqn:Hhere.
  { intros _. exists 0%nat. split; [lia|done]. }
  destruct (String.eqb (Path.resolve process_cwd dir "..") dir); [done|].
  intros (k & Hk & Hfound)%IH. exists (S k). split; [lia|done].
Qed.

Lemma walk_up_complete (n : nat) :
  forall dir k,
    (k < n)%nat ->
    existsSync (Path.resolve process_cwd (ancestor process_cwd k dir) ".gitnexus")
    = true ->
    (forall j, (j < k)%nat ->
       ancestor process_cwd (S j) dir <> ancestor process_cwd j dir) ->
    walk_up existsSync process_cwd n dir = true.
Proof.
  induction n as [|n IH]; intros dir k Hk Hfound Hroot; [lia|].
  rewrite walk_up_S.
  destruct (existsSync (Path.resolve process_cwd dir ".gitnexus")) eqn:Hhere;
    [done|].
  destruct k as [|k]; [cbn [ancestor] in Hfound; congruence|].
  destruct (String.eqb_spec (Path.resolve process_cwd dir "..") dir) as [Heq|_].
  { destruct (Hroot 0%nat); [lia|]. exact Heq. }
  apply (IH _ k); [lia|done|].
  intros j Hj. apply (Hroot (S j)). lia.
Qed.

End IndexFacts.

(** X7. [findGitNexusIndex] answers from its cache: after a call for
    [cwd] the cache holds the answer under [cwd] and is unchanged for
    every other key, and a second call for [cwd] returns the same answer
    and the same cache whatever the file system has become since. On a
    cache miss the answer is that of the walk of 5 steps up from
    [cwd]. *)
Theorem findGitNexusIndex_cached
    (existsSync existsSync' : string -> bool) (process_cwd process_cwd' : string)
    (cache : gmap string bool) (cwd : string) :
  let first := Hook.findGitNexusIndex existsSync process_cwd cache cwd in
  Hook.findGitNexusIndex existsSync' process_cwd' first.2 cwd = first /\
  first.2 !! cwd = Some first.1 /\
  (forall other, other <> cwd -> first.2 !! other = cache !! other) /\
  (cache !! cwd = None ->
   first.1 = Hook.walk_up existsSync process_cwd 5 cwd).
Proof.
  unfold Hook.findGitNexusIndex.
  generalize (Hook.walk_up existsSync process_cwd 5 cwd) as b.
  generalize (Hook.walk_up existsSync' process_cwd' 5 cwd) as b'.
  intros b' b.
  destruct (cache !! cwd) as [b0|] eqn:Hcache; cbn [fst snd].
  - rewrite Hcache. split_and!; [reflexivity|reflexivity|reflexivity|].
    intros [=].
  - rewrite lookup_insert_eq. split_and!; [reflexivity|reflexivity| |reflexivity].
    intros other Hother. apply lookup_insert_ne. congruence.
Qed.

(** X8. With an empty cache, [findGitNexusIndex] finds an index only if
    [cwd] or one of its first 4 ancestors holds [.gitnexus]; it finds one
    when the [k]-th ancestor ([k] below 5) holds [.gitnexus] and the walk
    has not reached the root before; in particular it finds one when [cwd]
    itself holds [.gitnexus]. *)
Theorem findGitNexusIndex_walks_up
    (existsSync : string -> bool) (process_cwd : string) (cwd : string) :
  let found := (Hook.findGitNexusIndex existsSync process_cwd ∅ cwd).1 in
  (found = true ->
   exists k, (k < 5)%nat /\
     existsSync (Path.resolve process_cwd (ancestor process_cwd k cwd) ".gitnexus")
     = true) /\
  (forall k, (k < 5)%nat ->
     existsSync (Path.resolve process_cwd (ancestor process_cwd k cwd) ".gitnexus")
     = true ->
     (forall j, (j < k)%nat ->
        ancestor process_cwd (S j) cwd <> ancestor process_cwd j cwd) ->
     found = true) /\
  (existsSync (Path.resolve process_cwd cwd ".gitnexus") = true -> found = true).
Proof.
  unfold Hook.findGitNexusIndex. rewrite lookup_empty. cbv zeta. cbn [fst].
  split_and!.
  - apply walk_up_sound.
  - apply walk_up_complete.
  - intros Hhere. apply (walk_up_complete _ _ 5 cwd 0); [lia|exact Hhere|].
    intros j Hj. lia.
Qed.

(** * The hook, as a whole *)
Section HookRunFacts.
Import Hook.
Variable existsSync : string -> bool.
Variable process_cwd : string.



(** The state and the job at the [await]. *)
Lemma tool_result_begin_fields
    (st : session) (event : tool_event) (ctx_cwd : string) :
  let r := tool_result_begin existsSync process_cwd st event ctx_cwd in
  let active :=
    augmentEnabled st && bool_decide (toolName event ∈ SEARCH_TOOLS) in
  let index :=
    findGitNexusIndex existsSync process_cwd (indexCache st)
                      (hook_cwd st ctx_cwd) in
  augmentEnabled r.1 = augmentEnabled st /\
  augmentHits r.1 = augmentHits st /\
  sessionCwd r.1 = sessionCwd st /\
  hookFires r.1 = (if active then S (hookFires st) else hookFires st) /\
  indexCache r.1 = (if active then index.2 else indexCache st) /\
  (active = false -> r.2 = None) /\
  (index.1 = false -> r.2 = None) /\
  (forall cwd j, r.2 = Some (cwd, j) ->
     cwd = hook_cwd st ctx_cwd /\
     job_patterns j <> [] /\
     (length (job_patterns j)
      <= if String.eqb (toolName event) "read_many" then 5 else 3)%nat).
Proof.
  cbv zeta. unfold tool_result_begin, hook_cwd.
  destruct (augmentEnabled st) eqn:Hen; cbn [negb andb fst snd];
    [|split_and!; try done; try (intros cwd j [=])].
  destruct (bool_decide (toolName event ∈ SEARCH_TOOLS)); cbn [negb fst snd];
    [|split_and!; try done; try (intros cwd j [=])].
  destruct (findGitNexusIndex _ _ _ _) as [found icache].
  destruct found; cbn [negb fst snd];
    [|split_and!; try done; try (intros cwd j [=])].
  destruct (String.eqb (toolName event) "read_many").
  - destruct (take 5 _) as [|f fresh] eqn:Hfresh; cbn [length Nat.eqb fst snd].
    { split_and!; try done; try (intros cwd j [=]). }
    split_and!; try done.
    intros cwd j [= <- <-]. split_and!; [done|done|].
    cbn [job_patterns]. rewrite length_fmap, <- Hfresh, length_take. lia.
  - destruct (filter _ _) as [|p fresh] eqn:Hfresh; cbn [length Nat.eqb fst snd].
    { split_and!; try done; try (intros cwd j [=]). }
    split_and!; try done.
    intros cwd j [= <- <-]. split_and!; [done|done|].
    cbn [job_patterns length]. rewrite length_take. lia.
Qed.

Lemma tool_result_finish_fields
    (st : session) (event : tool_event) (j : job) (outs : list string) :
  let r := tool_result_finish st event j outs in
  augmentEnabled r.1 = augmentEnabled st /\
  sessionCwd r.1 = sessionCwd st /\
  hookFires r.1 = hookFires st /\
  indexCache r.1 = indexCache st /\
  augmentHits r.1
  = match r.2 with Some _ => S (augmentHits st) | None => augmentHits st end.
Proof.
  unfold tool_result_finish. destruct j as [fresh|toRun].
  - by destruct (filter _ _).
  - by destruct (negb _).
Qed.



End HookRunFacts.

Section HookRunTheorems.
Import Hook.
Variable existsSync : string -> bool.
Variable process_cwd : string.

(** X9. When auto-augment is switched off, or the tool is not one of
    [SEARCH_TOOLS], the hook does nothing at all: no [runAugment] call, no
    content returned, and the session state (counters, caches) is as it
    was. *)
Theorem tool_result_inactive
    (runAugment : string -> string -> string)
    (st : session) (event : tool_event) (ctx_cwd : string) :
  augmentEnabled st = false \/ toolName event ∉ SEARCH_TOOLS ->
  tool_result existsSync process_cwd runAugment st event ctx_cwd
  = (st, [], None).
Proof.
  intros Hoff. unfold tool_result, tool_result_begin.
  destruct (augmentEnabled st); cbn [negb]; [|done].
  destruct Hoff as [Hoff|Hoff]; [done|].
  by rewrite bool_decide_eq_false_2.
Qed.

(** X10. The counters of a run of the hook. [hookFires] grows by one
    exactly when augmenting is enabled and the tool is a search tool
    (whether or not an index is found or anything is dispatched);
    [augmentHits] grows by one exactly when the hook returns a content;
    [augmentEnabled] and [sessionCwd] are not touched. *)
Theorem tool_result_counters
    (runAugment : string -> string -> string)
    (st : session) (event : tool_event) (ctx_cwd : string) :
  let r := tool_result existsSync process_cwd runAugment st event ctx_cwd in
  hookFires r.1.1
  = (if augmentEnabled st && bool_decide (toolName event ∈ SEARCH_TOOLS)
     then S (hookFires st) else hookFires st) /\
  augmentHits r.1.1
  = match r.2 with Some _ => S (augmentHits st) | None => augmentHits st end /\
  augmentEnabled r.1.1 = augmentEnabled st /\
  sessionCwd r.1.1 = sessionCwd st.
Proof.
  cbv zeta. unfold tool_result.
  pose proof (tool_result_begin_fields existsSync process_cwd st event ctx_cwd)
    as (Hen & Hhits & Hcwd & Hfires & _).
  destruct (tool_result_begin _ _ st event ctx_cwd) as [st1 [[cwd j]|]];
    cbn [fst snd] in *; [|done].
  pose proof (tool_result_finish_fields st1 event j
                ((fun p => runAugment p cwd) <$> job_patterns j))
    as (Hen2 & Hcwd2 & Hfires2 & _ & Hhits2).
  destruct (tool_result_finish _ _ _ _) as [st2 r]. cbn [fst snd] in *.
  cbv zeta in *. rewrite Hfires2, Hhits2, Hen2, Hcwd2, Hfires, Hhits, Hen, Hcwd.
  done.
Qed.

(** X11. What one run of the hook dispatches. At most 3 [runAugment]
    calls (at most 5 for [read_many]), all with the same working
    directory: [sessionCwd] when it is set, the [cwd] of the context
    otherwise. When no index is found for that directory there is no call
    and no content; without a call there is no content. The dedup cache
    after the run is the cache before it together with the patterns
    dispatched, whatever the lookups returned: a pattern whose lookup came
    back empty is not looked up again. *)
Theorem tool_result_fanout
    (runAugment : string -> string -> string)
    (st : session) (event : tool_event) (ctx_cwd : string) :
  let r := tool_result existsSync process_cwd runAugment st event ctx_cwd in
  let calls := r.1.2 in
  (length calls
   <= if String.eqb (toolName event) "read_many" then 5 else 3)%nat /\
  Forall (fun c => c.2 = hook_cwd st ctx_cwd) calls /\
  ((findGitNexusIndex existsSync process_cwd (indexCache st)
                      (hook_cwd st ctx_cwd)).1 = false ->
   calls = [] /\ r.2 = None) /\
  (calls = [] -> r.2 = None) /\
  (forall p, p ∈ augmentedCache r.1.1 <->
             p ∈ calls.*1 \/ p ∈ augmentedCache st).
Proof.
  cbv zeta.
  pose proof (tool_result_cache existsSync process_cwd runAugment st event ctx_cwd)
    as Hcache.
  revert Hcache. unfold tool_result.
  pose proof (tool_result_begin_fields existsSync process_cwd st event ctx_cwd)
    as (_ & _ & _ & _ & _ & _ & Hnoindex & Hjob).
  destruct (tool_result_begin _ _ st event ctx_cwd) as [st1 [[cwd j]|]] eqn:Hbegin;
    cbn [fst snd] in *.
  - destruct (Hjob cwd j eq_refl) as (-> & Hne & Hlen).
    destruct (tool_result_begin_job _ _ _ _ _ _ _ _ Hbegin) as [Hadd _].
    destruct (tool_result_finish _ _ _ _) as [st2 r]. cbn [fst snd].
    intros Hcache. split_and!.
    + by rewrite length_fmap.
    + apply Forall_fmap, Forall_forall. by intros p _.
    + intros Hidx. by specialize (Hnoindex Hidx).
    + intros Hnil%fmap_nil_inv. done.
    + intros p. rewrite Hcache, Hadd, elem_of_add_all.
      rewrite <- list_fmap_compose.
      replace (fst ∘ (fun p => (p, hook_cwd st ctx_cwd))) with (@id string) by done.
      by rewrite list_fmap_id.
  - intros Hcache. split_and!; try done.
    + destruct (String.eqb _ _); cbn [length]; lia.
    + intros p.
      rewrite (tool_result_begin_idle _ _ _ _ _ _ Hbegin).
      split; [by right|]. by intros [?%elem_of_nil|?].
Qed.


End HookRunTheorems.

Lemma tool_result_inactive_witness :
  Hook.tool_result sample_existsSync "/" sample_runAugment
    (Hook.Session false 0 0 ∅ "/home/u/proj" ∅) grep_event "/home/u/proj"
  = (Hook.Session false 0 0 ∅ "/home/u/proj" ∅, [], None) /\
  Hook.tool_result sample_existsSync "/" sample_runAugment sample_session
    (Hook.ToolEvent "edit" [("path", VStr "src/bank.sol")] []) "/home/u/proj"
  = (sample_session, [], None).
Proof.
  split.
  - apply (tool_result_inactive sample_existsSync "/"). by left.
  - apply (tool_result_inactive sample_existsSync "/"). right.
    apply (bool_decide_unpack _). vm_compute. exact I.
Defined.


(** * Further facts about the MCP client *)
Section MoreMapFacts.
Context {V : Type}.

Lemma Map_get_None (k : Z) (m : list (Z * V)) :
  JsMap.get k m = None <-> k ∉ m.*1.
Proof.
  induction m as [|[k' v] m IH].
  { split; [intros _ []%elem_of_nil|done]. }
  cbn [JsMap.get]. rewrite fmap_cons, not_elem_of_cons. cbn [fst].
  destruct (decide (k' = k)) as [->|Hne].
  - split; [done|]. by intros [? _].
  - rewrite IH. split; [by split|]. by intros [_ ?].
Qed.

Lemma Map_set_fresh (k : Z) (v : V) (m : list (Z * V)) :
  JsMap.get k m = None -> JsMap.set k v m = m ++ [(k, v)].
Proof.
  induction m as [|[k' v'] m IH]; simpl; [done|].
  destruct (decide (k' = k)); [done|]. intros Hget. by rewrite IH.
Qed.

Lemma Map_set_keys (k : Z) (v : V) (m : list (Z * V)) :
  (JsMap.set k v m).*1 = if decide (k ∈ m.*1) then m.*1 else m.*1 ++ [k].
Proof.
  induction m as [|[k' v'] m IH]; [done|].
  cbn [JsMap.set]. rewrite (fmap_cons fst (k', v') m). cbn [fst].
  destruct (decide (k' = k)) as [->|Hne].
  - rewrite fmap_cons. cbn [fst].
    rewrite decide_True; [done|apply list_elem_of_here].
  - rewrite fmap_cons, IH. cbn [fst].
    destruct (decide (k ∈ m.*1)) as [Hin|Hout].
    + rewrite decide_True; [done|by apply list_elem_of_further].
    + rewrite decide_False; [done|].
      intros [?|?]%elem_of_cons; congruence.
Qed.

Lemma Map_delete_keys (k : Z) (m : list (Z * V)) :
  (JsMap.delete k m).*1 = filter (fun k' => k' <> k) m.*1.
Proof.
  induction m as [|[k' v] m IH]; [done|].
  cbn [JsMap.delete]. rewrite (fmap_cons fst (k', v) m), filter_cons. cbn [fst].
  destruct (decide (k' = k)) as [->|Hne].
  - by rewrite decide_False by (intros Hk; by apply Hk).
  - rewrite decide_True by done. rewrite fmap_cons. cbn [fst]. by rewrite IH.
Qed.

Lemma Map_delete_absent (k : Z) (m : list (Z * V)) :
  JsMap.get k m = None -> JsMap.delete k m = m.
Proof.
  induction m as [|[k' v] m IH]; simpl; [done|].
  destruct (decide (k' = k)); [done|]. intros Hget. by rewrite IH.
Qed.

Lemma Map_delete_app (k : Z) (m1 m2 : list (Z * V)) :
  JsMap.delete k (m1 ++ m2) = JsMap.delete k m1 ++ JsMap.delete k m2.
Proof.
  induction m1 as [|[k' v] m1 IH]; simpl; [done|].
  destruct (decide (k' = k)); [done|]. simpl. by rewrite IH.
Qed.

(** An entry set under a key that was free, then deleted: the map is as it
    was. *)
Lemma Map_delete_set (k : Z) (v : V) (m : list (Z * V)) :
  JsMap.get k m = None -> JsMap.delete k (JsMap.set k v m) = m.
Proof.
  intros Hget. rewrite (Map_set_fresh k v m Hget), Map_delete_app.
  rewrite (Map_delete_absent k m Hget). simpl.
  rewrite decide_True by done. by rewrite app_nil_r.
Qed.

Lemma Map_get_set_eq (k : Z) (v : V) (m : list (Z * V)) :
  JsMap.get k (JsMap.set k v m) = Some v.
Proof.
  induction m as [|[k' v'] m IH]; simpl.
  { by rewrite decide_True. }
  destruct (decide (k' = k)) as [->|Hne]; simpl.
  - by rewrite decide_True.
  - by rewrite decide_False.
Qed.

End MoreMapFacts.

Section ClientFacts.
Import Mcp.
Variable JSON_parse : string -> option value.

Lemma reject_fold (ws : list waiter) :
  forall (st : client) (effs : list effect),
    let r := foldl (fun acc w =>
                      let '(st', effs) := reject w acc.1 in (st', acc.2 ++ effs))
                   (st, effs) ws in
    r.2 = effs ++ mjoin (rejection <$> ws) /\
    proc r.1 = proc st /\ buffer r.1 = buffer st /\
    pending r.1 = pending st /\ nextId r.1 = nextId st /\
    (startPromise st = false -> startPromise r.1 = false).
Proof.
  induction ws as [|w ws IH]; intros st effs.
  { cbn. rewrite app_nil_r. done. }
  cbn [foldl fmap list_fmap mjoin list_join fst snd].
  destruct w as [h|k]; cbn [reject].
  - destruct (IH (Client (proc st) (buffer st) (pending st) (nextId st) false)
                 (effs ++ [StartRejected]))
      as (Heffs & Hproc & Hbuf & Hpend & Hid & Hstart).
    cbv zeta in *. cbn [fst snd] in *.
    split_and!; try done.
    + rewrite Heffs. by rewrite <- (assoc_L (++)).
    + intros _. by apply Hstart.
  - destruct (IH st (effs ++ [Settle k ""]))
      as (Heffs & Hproc & Hbuf & Hpend & Hid & Hstart).
    cbv zeta in *. cbn [fst snd] in *.
    split_and!; try done.
    rewrite Heffs. by rewrite <- (assoc_L (++)).
Qed.

(** [reject_all] on a client whose [startPromise] is cleared. *)
Lemma reject_all_spec (st : client) :
  startPromise st = false ->
  reject_all st
  = (Client (proc st) (buffer st) [] (nextId st) false,
     mjoin (rejection <$> JsMap.values (pending st))).
Proof.
  intros Hstart. unfold reject_all.
  destruct (reject_fold (JsMap.values (pending st)) st [])
    as (Heffs & Hproc & Hbuf & _ & Hid & Hsp).
  cbv zeta in *.
  destruct (foldl _ _ _) as [st' effs]. cbn [fst snd] in *.
  by rewrite Heffs, Hproc, Hbuf, Hid, (Hsp Hstart).
Qed.

End ClientFacts.

Section ClientInvariant.
Import Mcp.
Variable JSON_parse : string -> option value.

Lemma pending_delete_keys (m : list (Z * waiter)) (id : value) :
  sublist (pending_delete m id).*1 m.*1.
Proof.
  destruct id as [| |x| | |]; simpl; try done.
  destruct (integer x) as [n|]; [|done].
  rewrite Map_delete_keys. apply sublist_filter.
Qed.

Lemma on_line_keys (st : client) (line : string) :
  sublist (pending (on_line JSON_parse st line).1).*1 (pending st).*1.
Proof.
  unfold on_line. destruct (negb _); [done|].
  unfold on_line_body. destruct (parse JSON_parse line) as [msg|]; [|done].
  simpl. destruct (prop msg "id") as [[id|]|]; try done. simpl.
  destruct (pending_get (pending st) id) as [w|]; [|done]. simpl.
  destruct w; simpl; apply pending_delete_keys.
Qed.

Lemma on_lines_keys (lines : list string) (st : client) :
  sublist (pending (on_lines JSON_parse st lines).1).*1 (pending st).*1.
Proof.
  induction lines as [|line lines IH] using rev_ind; [done|].
  rewrite on_lines_snoc. cbv zeta. cbn [fst].
  etrans; [apply on_line_keys|exact IH].
Qed.

Lemma on_data_keys (st : client) (chunk : string) :
  sublist (pending (on_data JSON_parse st chunk).1).*1 (pending st).*1.
Proof.
  pose proof (on_data_unfold JSON_parse st chunk) as Hdata. cbv zeta in Hdata.
  rewrite Hdata. cbn [fst with_buffer pending]. apply on_lines_keys.
Qed.

Lemma reject_all_pending (st : client) : pending (reject_all st).1 = [].
Proof. unfold reject_all. by destruct (foldl _ _ _). Qed.

Lemma pending_ok_sublist (st st' : client) :
  sublist (pending st').*1 (pending st).*1 ->
  nextId st' = nextId st ->
  pending_ok st -> pending_ok st'.
Proof.
  intros Hsub Hid (Hnd & Hall & Hle). unfold pending_ok. rewrite Hid.
  split_and!; [|
    |done].
  - by eapply sublist_NoDup.
  - apply Forall_forall. intros id Hin. rewrite Forall_forall in Hall.
    apply Hall. by eapply elem_of_sublist.
Qed.

Lemma pending_ok_empty (st : client) :
  pending st = [] -> (2 <= nextId st)%Z -> pending_ok st.
Proof.
  intros Hp Hle. unfold pending_ok. rewrite Hp.
  split_and!; [constructor|constructor|done].
Qed.

Lemma pending_ok_fresh (st : client) :
  pending_ok st -> JsMap.get (nextId st) (pending st) = None.
Proof.
  intros (_ & Hall & Hle). apply Map_get_None. intros Hin.
  rewrite Forall_forall in Hall. specialize (Hall _ Hin). lia.
Qed.

Lemma step_pending_ok (st : client) (a : action) :
  pending_ok st -> pending_ok (step JSON_parse st a).1.
Proof.
  intros Hok. pose proof Hok as (Hnd & Hall & Hle).
  destruct a as [h|k name args write_ok|k|chunk| | |]; cbn [step].
  - unfold ensureStarted. destruct (proc st); [done|].
    destruct (startPromise st); [done|].
    unfold pending_ok. cbn [fst pending nextId].
    rewrite Map_set_keys.
    destruct (decide (1%Z ∈ (pending st).*1)); [done|].
    split_and!; [| |done].
    + apply NoDup_app. split_and!; [done| |apply NoDup_singleton].
      intros id Hid ->%list_elem_of_singleton. done.
    + apply Forall_app. split; [done|]. constructor; [by left|constructor].
  - unfold callTool_issue. destruct (proc st) as [h|]; [|done].
    pose proof (pending_ok_fresh st Hok) as Hfresh.
    destruct write_ok; unfold pending_ok; cbn [fst pending nextId].
    + rewrite Map_set_keys.
      rewrite decide_False by (by apply Map_get_None).
      split_and!; [| |lia].
      * apply NoDup_app. split_and!; [done| |apply NoDup_singleton].
        intros id Hid ->%list_elem_of_singleton.
        by apply Map_get_None in Hfresh.
      * apply Forall_app. split.
        -- eapply Forall_impl; [exact Hall|]. simpl. lia.
        -- constructor; [lia|constructor].
    + rewrite (Map_delete_set _ _ _ Hfresh).
      split_and!; [done| |lia].
      eapply Forall_impl; [exact Hall|]. simpl. lia.
  - done.
  - apply (pending_ok_sublist st); [apply on_data_keys| |done].
    apply on_data_nextId.
  - apply pending_ok_empty.
    + unfold on_close. apply reject_all_pending.
    + destruct (step_nextId JSON_parse st AClose) as [Hid _].
      cbn [step allocates] in Hid. rewrite Hid. done.
  - unfold on_error. done.
  - apply pending_ok_empty.
    + unfold stop. pose proof (reject_all_pending
        (Client None (buffer st) (pending st) (nextId st) false)) as Hp.
      by destruct (reject_all _).
    + destruct (step_nextId JSON_parse st AStop) as [Hid _].
      cbn [step allocates] in Hid. rewrite Hid. done.
Qed.

Lemma run_pending_ok (trace : list action) :
  forall st : client, pending_ok st -> pending_ok (run JSON_parse st trace).1.
Proof.
  induction trace as [|a trace IH]; intros st Hok; [done|].
  cbn [run].
  pose proof (step_pending_ok st a Hok) as Hok1.
  destruct (step JSON_parse st a) as [st1 e1]. cbn [fst] in Hok1.
  specialize (IH st1 Hok1).
  by destruct (run JSON_parse st1 trace) as [st2 e2].
Qed.

(** X16. Over every sequence of callbacks from the initial client, the
    keys of [pending] are pairwise distinct and each is the handshake id 1
    or an id below [nextId] (and at least 2); so the id the next call
    allocates is never in use: a call never replaces the waiter of an
    outstanding request, its request is written with the fresh id and its
    waiter is appended to [pending]. *)
Theorem run_keeps_ids_fresh (trace : list action) :
  let st := (run JSON_parse initial trace).1 in
  NoDup (pending st).*1 /\
  Forall (fun id => id = 1 \/ 2 <= id < nextId st)%Z (pending st).*1 /\
  JsMap.get (nextId st) (pending st) = None /\
  (forall (k : nat) (name : string) (args : list (string * value)) (h : nat),
      proc st = Some h ->
      (callTool_issue st k name args true).2
      = [StdinWrite h (MToolsCall (nextId st) name args)] /\
      pending (callTool_issue st k name args true).1
      = pending st ++ [(nextId st, CallWaiter k)]).
Proof.
  cbv zeta.
  assert (pending_ok (run JSON_parse initial trace).1) as Hok.
  { apply run_pending_ok. apply pending_ok_empty; done. }
  pose proof (pending_ok_fresh _ Hok) as Hfresh.
  destruct Hok as (Hnd & Hall & _).
  split_and!; try done.
  intros k name args h Hproc. unfold callTool_issue. rewrite Hproc.
  cbn [fst snd pending nextId]. split; [done|].
  by apply Map_set_fresh.
Qed.

(** X14. [stop()] and the [close] handler settle everything that is
    outstanding: every waiter of [pending] is rejected, in the order in
    which the requests were registered; a [callTool] promise is settled
    with the empty string exactly when its waiter was in [pending], and
    nothing is settled with anything else. Afterwards [pending] is empty,
    [proc] and [startPromise] are cleared, [nextId] and [buffer] are as
    before; [stop()] sends a [SIGTERM] first when the client held a
    process. *)
Theorem stop_settles_every_call (st : client) :
  stop st
  = (Client None (buffer st) [] (nextId st) false,
     match proc st with Some h => [Kill h] | None => [] end
     ++ mjoin (rejection <$> JsMap.values (pending st))) /\
  on_close st
  = (Client None (buffer st) [] (nextId st) false,
     mjoin (rejection <$> JsMap.values (pending st))) /\
  (forall (id : Z) (k : nat),
      (id, CallWaiter k) ∈ pending st ->
      Settle k "" ∈ (stop st).2 /\ Settle k "" ∈ (on_close st).2) /\
  (forall (k : nat) (result : string),
      Settle k result ∈ (stop st).2 \/ Settle k result ∈ (on_close st).2 ->
      result = "" /\ exists id, (id, CallWaiter k) ∈ pending st).
Proof.
  assert (stop st
          = (Client None (buffer st) [] (nextId st) false,
             match proc st with Some h => [Kill h] | None => [] end
             ++ mjoin (rejection <$> JsMap.values (pending st)))) as Hstop.
  { unfold stop.
    by rewrite (reject_all_spec
                  (Client None (buffer st) (pending st) (nextId st) false)). }
  assert (on_close st
          = (Client None (buffer st) [] (nextId st) false,
             mjoin (rejection <$> JsMap.values (pending st)))) as Hclose.
  { unfold on_close.
    by rewrite (reject_all_spec
                  (Client None (buffer st) (pending st) (nextId st) false)). }
  assert (forall k result,
             Settle k result ∈ mjoin (rejection <$> JsMap.values (pending st)) <->
             result = "" /\ exists id, (id, CallWaiter k) ∈ pending st) as Hin.
  { intros k result. rewrite list_elem_of_join. split.
    - intros (effs & Hk & Heffs).
      apply list_elem_of_fmap in Heffs as (w & -> & Hw).
      apply list_elem_of_fmap in Hw as ([id w'] & -> & Hw).
      destruct w' as [h|k']; cbn [snd rejection] in Hk.
      + apply list_elem_of_singleton in Hk. discriminate.
      + apply list_elem_of_singleton in Hk. injection Hk as -> ->.
        split; [done|]. by exists id.
    - intros [-> [id Hid]]. exists [Settle k ""]. split.
      + apply list_elem_of_here.
      + apply list_elem_of_fmap. exists (CallWaiter k). split; [done|].
        apply list_elem_of_fmap. by exists (id, CallWaiter k). }
  split_and!; [exact Hstop|exact Hclose| |].
  - intros id k Hid. rewrite Hstop, Hclose. cbn [snd].
    assert (Settle k "" ∈ mjoin (rejection <$> JsMap.values (pending st))) as Hk.
    { apply Hin. split; [done|]. by exists id. }
    split; [|done]. apply elem_of_app. by right.
  - intros k result. rewrite Hstop, Hclose. cbn [snd].
    intros [Hk|Hk]; [|by apply Hin].
    apply elem_of_app in Hk as [Hk|Hk]; [|by apply Hin].
    destruct (proc st); [|by apply elem_of_nil in Hk].
    apply list_elem_of_singleton in Hk. discriminate.
Qed.

(** X15. Round trip of a call. On a client that holds a process and
    whose next id is not in use, [callTool] writes one [tools/call]
    request with that id and registers its waiter under it; the response
    line carrying that id then settles the promise of this call with the
    interpretation of the line and leaves the client as it was before the
    call except for [nextId], which has grown by one. When the write fails
    instead, the promise is settled with the empty string and the client
    is again as before except for [nextId]. *)
Theorem callTool_round_trip
    (st : client) (h k : nat) (name : string) (args : list (string * value))
    (line : string) (msg : value) (x : number) :
  proc st = Some h ->
  JsMap.get (nextId st) (pending st) = None ->
  Js.truthy (Js.trim line) = true ->
  JSON_parse line = Some msg ->
  prop msg "id" = Ok (Some (VNum x)) ->
  integer x = Some (nextId st) ->
  let issued := callTool_issue st k name args true in
  issued.2 = [StdinWrite h (MToolsCall (nextId st) name args)] /\
  JsMap.get (nextId st) (pending issued.1) = Some (CallWaiter k) /\
  on_line JSON_parse issued.1 line
  = (with_nextId (nextId st + 1) st,
     [Settle k (callTool_resolve JSON_parse line)]) /\
  callTool_issue st k name args false
  = (with_nextId (nextId st + 1) st, [Settle k ""]).
Proof.
  intros Hproc Hfresh Hblank Hparse Hid Hx. cbv zeta.
  unfold callTool_issue, with_nextId. rewrite Hproc.
  cbn [fst snd pending nextId].
  split_and!.
  - done.
  - apply Map_get_set_eq.
  - erewrite (on_line_matched JSON_parse _ line msg x (nextId st) (CallWaiter k));
      [|done|done|done|done|apply Map_get_set_eq].
    cbn [resolve with_pending pending proc buffer nextId startPromise].
    by rewrite (Map_delete_set _ _ _ Hfresh).
  - by rewrite (Map_delete_set _ _ _ Hfresh).
Qed.


End ClientInvariant.

Lemma callTool_round_trip_witness :
  Mcp.on_line sample_parse
    (Mcp.callTool_issue (Mcp.Client (Some 1%nat) "" [] 2 true) 7 "query"
                        [("query", VStr "withdraw")] true).1
    line_alpha
  = (Mcp.Client (Some 1%nat) "" [] 3 true,
     [Mcp.Settle 7 (Mcp.label +:+ "alpha")]).
Proof.
  pose proof (callTool_round_trip sample_parse
                (Mcp.Client (Some 1%nat) "" [] 2 true) 1 7 "query"
                [("query", VStr "withdraw")] line_alpha msg_alpha (num_of_Z 2)
                eq_refl eq_refl eq_refl eq_refl eq_refl eq_refl)
    as (_ & _ & Hline & _).
  rewrite Hline. reflexivity.
Defined.
